(** * Graph power-spectral-density estimation (DeepSphere demo notebook)

    Shallow embedding of [estimate_graph_psd] from
    [demo_spherical_convolution.ipynb] and of the numpy operations it is
    written with, followed by the properties of the estimator.

    Numbers.  The notebook computes with IEEE doubles.  They are modelled by
    [fl]: a finite value is an exact rational, and the three special values
    [+inf], [-inf] and [nan] follow the IEEE rules that numpy applies
    (division by zero does not raise, it yields an infinity or [nan]).
    Rounding, overflow and the sign of zero are not modelled.

    Arrays.  A numpy array is its shape together with its elements in
    row-major (C) order.

    Collaborators.  The graph, the Itersine filter bank and its Chebyshev
    [filter] method belong to PyGSP, not to the notebook; they are the
    fields of the record [PyGSP].  numpy's global random generator is the
    state [RandomState] threaded through the estimator. *)

From Stdlib Require Import List ZArith QArith Qcanon Lia Lqa Bool.
Import ListNotations.

Open Scope Qc_scope.

(* ================================================================== *)
(** ** Doubles *)

Module Float.

Inductive fl : Type :=
| Fin (q : Qc)
| PInf
| NInf
| NaN.

Definition Qc_of_Z (z : Z) : Qc := Q2Qc (inject_Z z).
Definition Qc_of_nat (n : nat) : Qc := Qc_of_Z (Z.of_nat n).

Definition of_Z (z : Z) : fl := Fin (Qc_of_Z z).
Definition of_nat (n : nat) : fl := Fin (Qc_of_nat n).

Definition zero : fl := Fin 0.

(** [signed_inf c] is the infinity whose sign is the comparison of a finite
    operand with zero; a zero operand gives [nan] ([0 * inf], [0 / 0]). *)
Definition signed_inf (c : comparison) : fl :=
  match c with
  | Gt => PInf
  | Lt => NInf
  | Eq => NaN
  end.

Definition neg (x : fl) : fl :=
  match x with
  | Fin a => Fin (- a)
  | PInf => NInf
  | NInf => PInf
  | NaN => NaN
  end.

Definition add (x y : fl) : fl :=
  match x, y with
  | NaN, _ | _, NaN => NaN
  | Fin a, Fin b => Fin (a + b)
  | PInf, NInf | NInf, PInf => NaN
  | PInf, _ | _, PInf => PInf
  | NInf, _ | _, NInf => NInf
  end.

Definition sub (x y : fl) : fl := add x (neg y).

Definition mul (x y : fl) : fl :=
  match x, y with
  | NaN, _ | _, NaN => NaN
  | Fin a, Fin b => Fin (a * b)
  | Fin a, PInf | PInf, Fin a => signed_inf (a ?= 0)
  | Fin a, NInf | NInf, Fin a => signed_inf (CompOpp (a ?= 0))
  | PInf, PInf | NInf, NInf => PInf
  | PInf, NInf | NInf, PInf => NInf
  end.

(** True division.  A zero divisor never raises: a non-zero finite dividend
    gives an infinity, [0 / 0] gives [nan]. *)
Definition div (x y : fl) : fl :=
  match x, y with
  | NaN, _ | _, NaN => NaN
  | Fin a, Fin b =>
      match b ?= 0 with
      | Eq => signed_inf (a ?= 0)
      | _ => Fin (a / b)
      end
  | Fin _, (PInf | NInf) => Fin 0
  | PInf, Fin b => match b ?= 0 with Lt => NInf | _ => PInf end
  | NInf, Fin b => match b ?= 0 with Lt => PInf | _ => NInf end
  | _, _ => NaN
  end.

(** [x ** 2] *)
Definition square (x : fl) : fl := mul x x.

Definition is_zero (x : fl) : bool :=
  match x with
  | Fin a => match a ?= 0 with Eq => true | _ => false end
  | _ => false
  end.

Definition is_finite (x : fl) : bool :=
  match x with Fin _ => true | _ => false end.

(** [x <= y]; every comparison with [nan] is false. *)
Definition leb (x y : fl) : bool :=
  match x, y with
  | NaN, _ | _, NaN => false
  | Fin a, Fin b => match a ?= b with Gt => false | _ => true end
  | NInf, _ => true
  | _, PInf => true
  | _, _ => false
  end.

Definition eqb (x y : fl) : bool :=
  match x, y with
  | Fin a, Fin b => Qc_eq_bool a b
  | PInf, PInf | NInf, NInf | NaN, NaN => true
  | _, _ => false
  end.

(** [np.sum] of a one-dimensional run of values, accumulated from zero. *)
Definition sum (l : list fl) : fl := fold_left add l zero.

End Float.

Import Float.

(* ================================================================== *)
(** ** Python exceptions *)

Inductive exn : Type :=
| ValueError
| TypeError
| AxisError
| IndexError
| ZeroDivisionError.

Inductive result (A : Type) : Type :=
| Ok (a : A)
| Raise (e : exn).

Arguments Ok {A} a.
Arguments Raise {A} e.

Definition raises {A} (r : result A) : bool :=
  match r with Ok _ => false | Raise _ => true end.

(* ================================================================== *)
(** ** numpy arrays *)

Module Np.

Record ndarray (A : Type) : Type := mk_ndarray {
  shape : list nat;
  data : list A
}.

Arguments mk_ndarray {A} shape data.
Arguments shape {A} n.
Arguments data {A} n.

Definition size_of (sh : list nat) : nat := fold_right Nat.mul 1%nat sh.

Definition ndim {A} (a : ndarray A) : nat := length (shape a).

(** [len(a)]: the first dimension; a 0-d array has no length. *)
Definition len {A} (a : ndarray A) : result nat :=
  match shape a with
  | [] => Raise TypeError
  | d :: _ => Ok d
  end.


Definition amap {A B} (f : A -> B) (a : ndarray A) : ndarray B :=
  mk_ndarray (shape a) (map f (data a)).

(** [a[i]] on the flat element sequence ([a.flat[i]]). *)
Definition item (a : ndarray fl) (i : nat) : fl := nth i (data a) NaN.

(** [a ** 2] *)
Definition square (a : ndarray fl) : ndarray fl := amap Float.square a.

(** Integer arrays: [a * k], [a - k], and the conversion to doubles that
    happens when an integer array enters floating-point code. *)
Definition mul_scalar (a : ndarray Z) (k : Z) : ndarray Z :=
  amap (fun z => (z * k)%Z) a.
Definition sub_scalar (a : ndarray Z) (k : Z) : ndarray Z :=
  amap (fun z => (z - k)%Z) a.
Definition as_float (a : ndarray Z) : ndarray fl := amap of_Z a.

(** Reductions over axis 0.  For shape [(d0, rest...)] the result has shape
    [rest] and element [j] reduces [a[0, j], a[1, j], ..., a[d0-1, j]];
    with [m] the size of [rest], [a[v, j]] is flat element [v * m + j]. *)
Definition column (d0 m : nat) (xs : list fl) (j : nat) : list fl :=
  map (fun v => nth (v * m + j)%nat xs NaN) (seq 0 d0).

(** [np.sum(a, axis=0)] *)
Definition sum_axis0 (a : ndarray fl) : result (ndarray fl) :=
  match shape a with
  | [] => Raise AxisError
  | d0 :: rest =>
      let m := size_of rest in
      Ok (mk_ndarray rest
            (map (fun j => Float.sum (column d0 m (data a) j)) (seq 0 m)))
  end.

(** [np.mean(a, axis=0)]: the sum over the axis divided by its length (an
    empty axis gives [0 / 0 = nan]). *)
Definition mean_axis0 (a : ndarray fl) : result (ndarray fl) :=
  match shape a with
  | [] => Raise AxisError
  | d0 :: rest =>
      let m := size_of rest in
      Ok (mk_ndarray rest
            (map (fun j => div (Float.sum (column d0 m (data a) j)) (of_nat d0))
                 (seq 0 m)))
  end.

(** [a.squeeze()]: axes of length one are removed. *)
Definition squeeze {A} (a : ndarray A) : ndarray A :=
  mk_ndarray (filter (fun d => negb (d =? 1)%nat) (shape a)) (data a).

(** Broadcasting of two shapes of equal rank. *)
Fixpoint broadcast_shape (s1 s2 : list nat) : option (list nat) :=
  match s1, s2 with
  | [], [] => Some []
  | a :: s1', b :: s2' =>
      match broadcast_shape s1' s2' with
      | None => None
      | Some r =>
          if (a =? b)%nat then Some (a :: r)
          else if (a =? 1)%nat then Some (b :: r)
          else if (b =? 1)%nat then Some (a :: r)
          else None
      end
  | _, _ => None
  end.

(** Shapes are aligned on the right: the shorter one gets leading ones. *)
Definition pad_shape (n : nat) (s : list nat) : list nat :=
  repeat 1%nat (n - length s) ++ s.

Definition row {A} (v m : nat) (xs : list A) : list A :=
  firstn m (skipn (v * m) xs).

(** Element-wise [f] over two broadcast operands of equal rank: an axis of
    length one is read at index 0 whatever the output index. *)
Fixpoint broadcast_data (f : fl -> fl -> fl) (s1 s2 : list nat)
    (d1 d2 : list fl) : list fl :=
  match s1, s2 with
  | a :: s1', b :: s2' =>
      let out := if (a =? 1)%nat then b else a in
      flat_map
        (fun v =>
           broadcast_data f s1' s2'
             (row (if (a =? 1)%nat then 0 else v) (size_of s1') d1)
             (row (if (b =? 1)%nat then 0 else v) (size_of s2') d2))
        (seq 0 out)
  | _, _ => [f (nth 0 d1 NaN) (nth 0 d2 NaN)]
  end.

(** [a / b] with broadcasting; incompatible shapes raise [ValueError]. *)
Definition divide (a b : ndarray fl) : result (ndarray fl) :=
  let n := Nat.max (ndim a) (ndim b) in
  let s1 := pad_shape n (shape a) in
  let s2 := pad_shape n (shape b) in
  match broadcast_shape s1 s2 with
  | None => Raise ValueError
  | Some sh => Ok (mk_ndarray sh (broadcast_data div s1 s2 (data a) (data b)))
  end.

(** [y[-1] = stop] *)
Definition set_last (y : list fl) (stop : fl) : list fl :=
  match y with
  | [] => []
  | _ => removelast y ++ [stop]
  end.

(** [np.arange(0, num)] as doubles *)
Definition arange (num : nat) : list fl := map of_nat (seq 0 num).

(** [np.linspace(start, stop, num)] with the default [endpoint=True]. *)
Definition linspace (start stop : fl) (num : Z) : result (ndarray fl) :=
  if (num <? 0)%Z then Raise ValueError
  else
    let dv := (num - 1)%Z in
    let y := arange (Z.to_nat num) in
    let delta := sub stop start in
    let y :=
      if (1 <? num)%Z then
        let step := div delta (of_Z dv) in
        if is_zero step
        then map (fun v => mul (div v (of_Z dv)) delta) y
        else map (fun v => mul v step) y
      else map (fun v => mul v delta) y in
    let y := map (fun v => add v start) y in
    let y := if (1 <? num)%Z then set_last y stop else y in
    Ok (mk_ndarray [Z.to_nat num] y).

End Np.

Import Np.

(* ================================================================== *)
(** ** State: numpy's global random generator *)

(** [np.random] is a process-wide generator.  Its state is the sequence of
    fair Bernoulli outcomes it is going to deliver, together with the number
    of outcomes already consumed. *)
Record RandomState : Type := mk_RandomState {
  stream : nat -> bool;
  cursor : nat
}.

(** Computations that may raise and that read and advance the generator. *)
Definition M (A : Type) : Type := RandomState -> result A * RandomState.

Definition ret {A} (a : A) : M A := fun rs => (Ok a, rs).

Definition bind {A B} (c : M A) (k : A -> M B) : M B :=
  fun rs =>
    match c rs with
    | (Ok a, rs') => k a rs'
    | (Raise e, rs') => (Raise e, rs')
    end.

(** A call that does not touch the generator. *)
Definition lift {A} (r : result A) : M A := fun rs => (r, rs).

Notation "x <- c ;; k" := (bind c (fun x => k))
  (at level 61, c at next level, right associativity).

(** [np.random.seed(s)]: the state becomes the one the generator algorithm
    [gen] derives from the seed, whatever it was before. *)
Definition seed (gen : Z -> nat -> bool) (s : Z) : RandomState -> RandomState :=
  fun _ => mk_RandomState (gen s) 0.

Definition draws (rs : RandomState) (n : nat) : list bool :=
  map (fun i => stream rs (cursor rs + i)%nat) (seq 0 n).

Definition bernoulli (b : bool) : Z := if b then 1%Z else 0%Z.

(** [np.random.binomial(n=1, p=0.5, size=size)]: one fair Bernoulli outcome
    per element, in row-major order; a negative dimension raises. *)
Definition random_binomial (size : list Z) : M (ndarray Z) :=
  fun rs =>
    if existsb (fun d => (d <? 0)%Z) size then (Raise ValueError, rs)
    else
      let sh := map Z.to_nat size in
      let n := size_of sh in
      (Ok (mk_ndarray sh (map bernoulli (draws rs n))),
       mk_RandomState (stream rs) (cursor rs + n)).

(* ================================================================== *)
(** ** The PyGSP collaborators *)

(** What the estimator uses of PyGSP: a graph with its number of nodes [N]
    and the upper bound [lmax] of its Laplacian spectrum, the constructor
    [pg.filters.Itersine(graph, Nf=..., overlap=...)], and the method
    [g.filter(s, method='chebyshev', order=...)]. *)
Record PyGSP : Type := mk_PyGSP {
  Graph : Type;
  N : Graph -> nat;
  lmax : Graph -> Qc;
  Filter : Type;
  Itersine : Graph -> Z -> Z -> result Filter;
  filter_chebyshev : Filter -> ndarray fl -> Z -> result (ndarray fl)
}.

Arguments N {p} g.
Arguments lmax {p} g.
Arguments Itersine {p} graph Nf overlap.
Arguments filter_chebyshev {p} g s order.

(* ================================================================== *)
(** ** The estimator *)

Section Estimator.

Context {pg : PyGSP}.

(** [np.random.binomial(n=1, p=0.5, size=[graph.N, n_rand]) * 2 - 1] *)
Definition rand_sig (graph : Graph pg) (n_rand : Z) : M (ndarray Z) :=
  b <- random_binomial [Z.of_nat (N graph); n_rand] ;;
  ret (sub_scalar (mul_scalar b 2) 1).

(** [sig_dist = np.sum(sig_filt**2, axis=0)], followed by the mean over the
    batch axis when the result still has more than one axis. *)
Definition sig_dist (sig_filt : ndarray fl) : result (ndarray fl) :=
  match sum_axis0 (square sig_filt) with
  | Raise e => Raise e
  | Ok s =>
      if (1 <? ndim s)%nat then
        match mean_axis0 s with
        | Raise e => Raise e
        | Ok m => Ok (squeeze m)
        end
      else Ok s
  end.

(** [eig_dist = np.mean(np.sum(rand_sig_filered**2, axis=0), axis=0).squeeze()] *)
Definition eig_dist (rand_sig_filered : ndarray fl) : result (ndarray fl) :=
  match sum_axis0 (square rand_sig_filered) with
  | Raise e => Raise e
  | Ok s =>
      match mean_axis0 s with
      | Raise e => Raise e
      | Ok m => Ok (squeeze m)
      end
  end.

Definition estimate_graph_psd (graph : Graph pg) (signal : ndarray fl)
    (n_rand n_point : Z) : M (ndarray fl * ndarray fl) :=
  (* Define filterbank. *)
  g <- lift (Itersine graph n_point 2) ;;
  spectrum <- lift (linspace zero (Fin (lmax graph)) n_point) ;;
  (* Filter signal. *)
  sig_filt <- lift (filter_chebyshev g signal (2 * n_point)) ;;
  sig_dist <- lift (sig_dist sig_filt) ;;
  (* Estimate the eigenvectors by filtering random signals. *)
  rand_sig <- rand_sig graph n_rand ;;
  rand_sig_filered <- lift (filter_chebyshev g (as_float rand_sig) (2 * n_point)) ;;
  eig_dist <- lift (eig_dist rand_sig_filered) ;;
  (* Compute PSD. *)
  psd_values <- lift (divide sig_dist eig_dist) ;;
  ret (spectrum, psd_values).

End Estimator.

Arguments estimate_graph_psd pg graph signal n_rand n_point : clear implicits.


(* ================================================================== *)
(** ** Vocabulary of the properties *)

Definition returned_spectrum {A} (r : result (ndarray fl * ndarray fl) * A)
  : option (ndarray fl) :=
  match fst r with Ok (s, _) => Some s | Raise _ => None end.

Definition returned_psd {A} (r : result (ndarray fl * ndarray fl) * A)
  : option (ndarray fl) :=
  match fst r with Ok (_, p) => Some p | Raise _ => None end.

(** The two arrays of a call that returned (empty arrays otherwise). *)
Definition spectrum_of {A} (r : result (ndarray fl * ndarray fl) * A) : ndarray fl :=
  match fst r with Ok (s, _) => s | Raise _ => mk_ndarray [] [] end.

Definition psd_of {A} (r : result (ndarray fl * ndarray fl) * A) : ndarray fl :=
  match fst r with Ok (_, p) => p | Raise _ => mk_ndarray [] [] end.

(** The generator after [n] more outcomes have been consumed. *)
Definition advance (rs : RandomState) (n : nat) : RandomState :=
  mk_RandomState (stream rs) (cursor rs + n).

(** The probe ensemble built from given Bernoulli outcomes: outcome [b]
    becomes [2 b - 1]. *)
Definition probe_of_draws (n n_rand : nat) (bits : list bool) : ndarray Z :=
  mk_ndarray [n; n_rand] (map (fun b => (bernoulli b * 2 - 1)%Z) bits).

(** The ensemble a call draws when the generator is in state [rs]. *)
Definition probes (n : nat) (n_rand : Z) (rs : RandomState) : ndarray Z :=
  probe_of_draws n (Z.to_nat n_rand)
    (draws rs (size_of [n; Z.to_nat n_rand])).

(** Energy of band [i], in the words of the specification.

    [node_sum xs n idx] is the sum over all [n] nodes [v] of the square of
    the element of [xs] that [idx] assigns to [v].  For a filtered vector of
    shape [(n, nf)], element [(v, i)] is the value at node [v] of the signal
    filtered through band [i]; the band energy is the sum over all nodes of
    its squares. *)
Definition node_sum (xs : list fl) (n : nat) (idx : nat -> nat) : fl :=
  Float.sum (map (fun v => Float.square (nth (idx v) xs NaN)) (seq 0 n)).

Definition vec_energy (n nf : nat) (xs : list fl) (i : nat) : fl :=
  node_sum xs n (fun v => v * nf + i)%nat.

(** For a filtered batch of shape [(n, k, nf)], element [(v, j, i)] belongs
    to column [j]; the band energy is the mean over the [k] columns of the
    per-column sum over all nodes of the squares. *)
Definition batch_energy (n k nf : nat) (xs : list fl) (i : nat) : fl :=
  div
    (Float.sum
       (map (fun j => node_sum xs n (fun v => v * (k * nf) + j * nf + i)%nat)
            (seq 0 k)))
    (of_nat k).

Definition signal_energy (sig_filt : ndarray fl) (i : nat) : fl :=
  match shape sig_filt with
  | [n; nf] => vec_energy n nf (data sig_filt) i
  | [n; k; nf] => batch_energy n k nf (data sig_filt) i
  | _ => NaN
  end.

Definition reference_energy (rand_filt : ndarray fl) (i : nat) : fl :=
  match shape rand_filt with
  | [n; k; nf] => batch_energy n k nf (data rand_filt) i
  | _ => NaN
  end.

(** The filter answers with one output per band: shape [(n, nf)] for a
    vector, [(n, k, nf)] for an [n x k] batch. *)
Definition per_band (n nf : nat) (s out : ndarray fl) : Prop :=
  match shape s with
  | [_] => shape out = [n; nf]
  | [_; k] => shape out = [n; k; nf]
  | _ => False
  end.

(** One call seen from the collaborators: the bank that was built, and the
    per-band answers [sig_filt] and [rand_filt] of the two filter calls. *)
Record Analysis (pg : PyGSP) (graph : Graph pg) (signal : ndarray fl)
    (n_rand n_point : Z) (rs : RandomState)
    (g : Filter pg) (sig_filt rand_filt : ndarray fl) : Prop := mk_Analysis {
  bank_built : Itersine graph n_point 2 = Ok g;
  signal_filtered : filter_chebyshev g signal (2 * n_point) = Ok sig_filt;
  probes_filtered :
    filter_chebyshev g (as_float (probes (N graph) n_rand rs)) (2 * n_point)
    = Ok rand_filt;
  signal_per_band : per_band (N graph) (Z.to_nat n_point) signal sig_filt;
  probes_per_band :
    shape rand_filt = [N graph; Z.to_nat n_rand; Z.to_nat n_point]
}.

(** Validity of the arguments, as the specification words it. *)
Definition node_dimension {A} (s : ndarray A) : option nat := hd_error (shape s).

Definition invalid_argument {pg : PyGSP} (graph : Graph pg) (signal : ndarray fl)
    (n_rand n_point : Z) : Prop :=
  (n_point < 1)%Z \/ (n_rand < 1)%Z \/
  node_dimension signal <> Some (N graph) \/ lmax graph <= 0.

Definition valid_input {pg : PyGSP} (graph : Graph pg) (signal : ndarray fl)
    (n_rand n_point : Z) : Prop :=
  (1 <= n_point)%Z /\ (1 <= n_rand)%Z /\
  node_dimension signal = Some (N graph) /\ 0 < lmax graph.

(** Width of the batch: one for a vector. *)
Definition width {A} (s : ndarray A) : nat :=
  match shape s with
  | [_; k] => k
  | _ => 1
  end.

(** All elements present and finite. *)
Definition finite_array (a : ndarray fl) : bool :=
  (length (data a) =? size_of (shape a))%nat && forallb is_finite (data a).


(** A finite, non-negative value. *)
Definition nonneg (x : fl) : Prop := exists q, x = Fin q /\ 0 <= q.

(** [c * a] *)
Definition scale (c : Qc) (a : ndarray fl) : ndarray fl := amap (mul (Fin c)) a.

Definition sorted (a : ndarray fl) : Prop :=
  forall i j, (i <= j < length (data a))%nat -> leb (item a i) (item a j) = true.

Definition nd_eqb (a b : ndarray fl) : bool :=
  (if list_eq_dec Nat.eq_dec (shape a) (shape b) then true else false)
  && (length (data a) =? length (data b))%nat
  && forallb (fun p => Float.eqb (fst p) (snd p)) (combine (data a) (data b)).

(* ================================================================== *)
(** ** A concrete collaborator: dense filter banks

    An instance of [PyGSP] to run the estimator on.  A graph carries the
    band operators [h_i(L)] of its Itersine banks as dense [N x N] matrices;
    they are applied exactly, where PyGSP applies a Chebyshev approximation
    of them.  The shapes follow [Filter.filter] of PyGSP:
    - a signal whose first dimension is not [N] is rejected with
      [ValueError];
    - a vector is one signal; an [N x k] array is [k] signals, unless [k] is
      1 or the number of filters [Nf], in which case its last axis is read as
      features; a three-axis array must have 1 or [Nf] features;
    - one feature is analysed into [Nf] bands, giving [(N, signals, Nf)];
      [Nf] features are synthesised, band by band, into [(N, signals, 1)];
    - an empty bank raises [IndexError] and [lmax = 0] raises
      [ZeroDivisionError];
    - the answer is returned squeezed. *)

Module Dense.

Definition matrix : Type := list (list Qc).

Record graph : Type := mk_graph {
  nodes : nat;
  lmax : Qc;
  bands : Z -> list matrix
}.

Record bank : Type := mk_bank {
  bank_nodes : nat;
  bank_lmax : Qc;
  kernels : list matrix
}.

Definition itersine (g : graph) (Nf overlap : Z) : result bank :=
  Ok (mk_bank (nodes g) (lmax g) (bands g Nf)).

Fixpoint dot (r : list Qc) (x : list fl) : fl :=
  match r, x with
  | a :: r', b :: x' => add (mul (Fin a) b) (dot r' x')
  | _, _ => zero
  end.

(** Element [v] of [h x]. *)
Definition apply_at (h : matrix) (x : list fl) (v : nat) : fl :=
  dot (nth v h []) x.

(** The node values of signal [j], feature [f] in a tensor of shape
    [(n, J, F)]. *)
Definition fibre (n J F : nat) (xs : list fl) (j f : nat) : list fl :=
  map (fun u => nth (u * (J * F) + j * F + f)%nat xs NaN) (seq 0 n).

(** Signals and features of the input: [(J, F)]. *)
Definition tensor_shape (nf : nat) (sh : list nat) : result (nat * nat) :=
  match sh with
  | [_] => Ok (1%nat, 1%nat)
  | [_; k] => if ((k =? 1) || (k =? nf))%nat then Ok (1%nat, k) else Ok (k, 1%nat)
  | [_; k; f] => if ((f =? 1) || (f =? nf))%nat then Ok (k, f) else Raise ValueError
  | _ => Raise ValueError
  end.

(** [(n, J, 1)] to [(n, J, Nf)]: every band operator on every signal. *)
Definition analysis (n J : nat) (hs : list matrix) (xs : list fl) : list fl :=
  flat_map
    (fun v =>
       flat_map (fun j => map (fun h => apply_at h (fibre n J 1 xs j 0) v) hs)
                (seq 0 J))
    (seq 0 n).

(** [(n, J, Nf)] to [(n, J, 1)]: band [i] on feature [i], summed. *)
Definition synthesis (n J : nat) (hs : list matrix) (xs : list fl) : list fl :=
  flat_map
    (fun v =>
       map (fun j =>
              Float.sum
                (map (fun i => apply_at (nth i hs []) (fibre n J (length hs) xs j i) v)
                     (seq 0 (length hs))))
           (seq 0 J))
    (seq 0 n).

Definition filter (b : bank) (s : ndarray fl) (order : Z) : result (ndarray fl) :=
  let n := bank_nodes b in
  let hs := kernels b in
  let nf := length hs in
  match shape s with
  | [] => Raise IndexError
  | n0 :: _ =>
      if negb (n0 =? n)%nat then Raise ValueError
      else
        match tensor_shape nf (shape s) with
        | Raise e => Raise e
        | Ok (J, F) =>
            if (nf =? 0)%nat then Raise IndexError
            else if is_zero (Fin (bank_lmax b)) then Raise ZeroDivisionError
            else if (F =? 1)%nat
            then Ok (squeeze (mk_ndarray [n; J; nf] (analysis n J hs (data s))))
            else Ok (squeeze (mk_ndarray [n; J; 1%nat] (synthesis n J hs (data s))))
        end
  end.

Definition pygsp : PyGSP :=
  mk_PyGSP graph nodes lmax bank itersine filter.

(** The path graph on two nodes, combinatorial Laplacian [[1,-1],[-1,1]] with
    eigenvalues 0 and 2 = [lmax].  With two bands and overlap 2 the Itersine
    kernels take the values (1, 0) and (0, 1) at these eigenvalues, up to
    the normalisation constant of the kernels, which cancels in the psd; so
    the exact band operators separate them: the low band projects on the
    constant vector, the high band on [(1,-1)].  With a single band the
    kernel is constant and the operator is the identity, up to the same
    constant.  Only these two banks are tabulated. *)
Definition half : Qc := Q2Qc (1 # 2).

Definition low : matrix := [[half; half]; [half; half]].
Definition high : matrix := [[half; - half]; [- half; half]].
Definition identity2 : matrix := [[1; 0]; [0; 1]].

Definition path2 : graph :=
  mk_graph 2 (Q2Qc 2)
    (fun Nf => if (Nf =? 1)%Z then [identity2]
               else if (Nf =? 2)%Z then [low; high] else []).

Definition vector (l : list Z) : ndarray fl :=
  mk_ndarray [length l] (map of_Z l).

Definition batch (rows : list (list Z)) : ndarray fl :=
  mk_ndarray [length rows; length (hd [] rows)] (map of_Z (concat rows)).

(** Generator states: every outcome a success, or outcomes given by an
    explicit finite prefix. *)
Definition all_heads : RandomState := mk_RandomState (fun _ => true) 0.
Definition from_list (l : list bool) : RandomState :=
  mk_RandomState (fun i => nth i l false) 0.
Definition mixed : RandomState := from_list [true; false; true; true].

Definition bank1 : bank := mk_bank 2 (Q2Qc 2) [identity2].
Definition bank2 : bank := mk_bank 2 (Q2Qc 2) [low; high].
Definition impulse : ndarray fl := vector [1; 0]%Z.

(** The array a successful call answered. *)
Definition answer (r : result (ndarray fl)) : ndarray fl :=
  match r with
  | Ok a => a
  | Raise _ => mk_ndarray [] []
  end.

(** The answers of the two filter calls of a run on [path2]. *)
Definition sig_filt (signal : ndarray fl) (n_point : Z) : ndarray fl :=
  answer (filter (mk_bank (nodes path2) (lmax path2) (bands path2 n_point))
            signal (2 * n_point)).
Definition rand_filt (n_rand n_point : Z) (rs : RandomState) : ndarray fl :=
  answer (filter (mk_bank (nodes path2) (lmax path2) (bands path2 n_point))
            (as_float (probes (nodes path2) n_rand rs)) (2 * n_point)).

(** The estimator on [path2]. *)
Definition run (signal : ndarray fl) (n_rand n_point : Z) (rs : RandomState)
  : result (ndarray fl * ndarray fl) * RandomState :=
  estimate_graph_psd pygsp path2 signal n_rand n_point rs.

End Dense.

(* ================================================================== *)
(** ** Proofs by evaluation on concrete runs *)

Ltac by_evaluation := vm_compute; reflexivity.

Ltac concrete_analysis := constructor; by_evaluation.

(* ================================================================== *)
(** ** The other functions of the notebook *)

(** [np.pi], the double nearest to pi: 884279719003555 / 2^48. *)
Definition np_pi : Qc := Q2Qc (884279719003555 # 281474976710656).

(** [arcmin2rad(x)]: [x / 60 / 360 * 2 * np.pi] *)
Definition arcmin2rad (x : fl) : fl :=
  mul (mul (div (div x (of_Z 60)) (of_Z 360)) (of_Z 2)) (Fin np_pi).

(** What [gaussian_smoothing] uses of healpy, on one-dimensional maps:
    [hp.reorder(m, n2r=True)], [hp.reorder(m, r2n=True)] and
    [hp.sphtfunc.smoothing(m, sigma=...)]. *)
Record Healpy : Type := mk_Healpy {
  reorder_n2r : list fl -> result (list fl);
  reorder_r2n : list fl -> result (list fl);
  smoothing : list fl -> fl -> result (list fl)
}.

(** [gaussian_smoothing(sig, sigma, nest)].  The [HiddenPrints] context only
    silences standard output while the body runs. *)
Definition gaussian_smoothing (hp : Healpy) (sig : list fl) (sigma : fl)
    (nest : bool) : result (list fl) :=
  match (if nest then reorder_n2r hp sig else Ok sig) with
  | Raise e => Raise e
  | Ok sig =>
      match smoothing hp sig (arcmin2rad sigma) with
      | Raise e => Raise e
      | Ok smooth => if nest then reorder_r2n hp smooth else Ok smooth
      end
  end.

(** [x > y]; false as soon as one side is [nan]. *)
Definition py_gt (x y : fl) : bool :=
  match x, y with
  | NaN, _ | _, NaN => false
  | _, _ => negb (leb x y)
  end.

(** Python's [max(a, b)]: [b] only if [b > a]. *)
Definition py_max2 (a b : fl) : fl := if py_gt b a then b else a.

(** Python's [max(xs)] over the elements of a one-dimensional array; an
    empty one raises [ValueError]. *)
Definition py_max (xs : list fl) : result fl :=
  match xs with
  | [] => Raise ValueError
  | x :: rest => Ok (fold_left py_max2 rest x)
  end.

(** The colour scale of the comparison loop,
    [for ... sigma ...: smooth = gaussian_smoothing(sig, sigma, nest=True);
    m = max(m, max(smooth)); ...]: the smoothed map and the value of [m] of
    every iteration.  The plotting calls and [rel_diff] do not touch [m]. *)
Fixpoint colour_scales (hp : Healpy) (sig : list fl) (sigmas : list fl) (m : fl)
  : result (list (list fl * fl)) :=
  match sigmas with
  | [] => Ok []
  | sigma :: rest =>
      match gaussian_smoothing hp sig sigma true with
      | Raise e => Raise e
      | Ok smooth =>
          match py_max smooth with
          | Raise e => Raise e
          | Ok top =>
              let m := py_max2 m top in
              match colour_scales hp sig rest m with
              | Raise e => Raise e
              | Ok later => Ok ((smooth, m) :: later)
              end
          end
      end
  end.



(** Concrete collaborators for the runs below. *)
Module Examples.

(** The answer of a filter call. *)
Definition answer_of (c : PyGSP) (f : Filter c) (s : ndarray fl) (order : Z)
  : ndarray fl :=
  Dense.answer (filter_chebyshev f s order).

(** The map a successful call returned. *)
Definition returned_map (r : result (list fl)) : list fl :=
  match r with Ok m => m | Raise _ => [] end.

Definition returned_steps (r : result (list (list fl * fl))) : list (list fl * fl) :=
  match r with Ok s => s | Raise _ => [] end.

(** A healpy stand-in on maps of any length: reordering reverses the map
    (ring to nested and back), smoothing with width [sigma] adds [sigma] to
    every pixel. *)
Definition toy_healpy : Healpy :=
  mk_Healpy (fun m => Ok (rev m)) (fun m => Ok (rev m))
            (fun m sigma => Ok (map (fun x => add x sigma) m)).

End Examples.

(* ================================================================== *)
(** ** Lists *)

Section ListFacts.

Context {A B : Type}.

Lemma nth_map_seq (F : nat -> A) (m p : nat) (d : A) :
  (p < m)%nat -> nth p (map F (seq 0 m)) d = F p.
Proof.
  intros Hp.
  rewrite (nth_indep _ d (F 0%nat)) by (rewrite length_map, length_seq; exact Hp).
  rewrite (map_nth F (seq 0 m) 0%nat p), seq_nth by exact Hp.
  reflexivity.
Qed.

Lemma map_seq_ext (F G : nat -> A) (m : nat) :
  (forall p, (p < m)%nat -> F p = G p) -> map F (seq 0 m) = map G (seq 0 m).
Proof.
  intros H. apply map_ext_in. intros p Hp. apply in_seq in Hp. apply H. lia.
Qed.

Lemma flat_map_singleton (F : B -> A) (l : list B) :
  flat_map (fun v => [F v]) l = map F l.
Proof.
  induction l as [|b l IH]; simpl; [reflexivity | now rewrite IH].
Qed.

Lemma nth_skipn (l : list A) (v p : nat) (d : A) :
  nth p (skipn v l) d = nth (v + p) l d.
Proof.
  revert l. induction v as [|v IH]; intros l; simpl; [reflexivity|].
  destruct l as [|a l]; simpl; [now destruct p | apply IH].
Qed.

Lemma nth_0_row (l : list A) (v : nat) (d : A) :
  nth 0 (row v 1 l) d = nth v l d.
Proof.
  unfold row. rewrite Nat.mul_1_r.
  rewrite <- (Nat.add_0_r v) at 2. rewrite <- nth_skipn.
  now destruct (skipn v l).
Qed.

Lemma map_nth_in (F : A -> B) (l : list A) (p : nat) (d : A) (e : B) :
  (p < length l)%nat -> nth p (map F l) e = F (nth p l d).
Proof.
  intros Hp. rewrite (nth_indep _ e (F d)) by (now rewrite length_map).
  apply map_nth.
Qed.

End ListFacts.

(* ================================================================== *)
(** ** Arithmetic of the doubles *)

Lemma this_plus (x y : Qc) : (this (x + y) == this x + this y)%Q.
Proof. apply Qred_correct. Qed.

Lemma this_mult (x y : Qc) : (this (x * y) == this x * this y)%Q.
Proof. apply Qred_correct. Qed.

Lemma this_inv (x : Qc) : (this (/ x) == / this x)%Q.
Proof. apply Qred_correct. Qed.

Lemma this_div (x y : Qc) : (this (x / y) == this x / this y)%Q.
Proof. unfold Qcdiv. now rewrite this_mult, this_inv. Qed.

Lemma this_of_Z (z : Z) : (this (Qc_of_Z z) == inject_Z z)%Q.
Proof. apply Qred_correct. Qed.

Lemma Qc_compare_spec (a b : Qc) :
  CompareSpec (a = b) (a < b) (b < a) (a ?= b).
Proof.
  destruct (a ?= b) eqn:E; constructor.
  - now apply Qceq_alt.
  - now apply Qclt_alt.
  - now apply Qcgt_alt.
Qed.

Lemma Qc_of_Z_pos (z : Z) : (0 < z)%Z -> 0 < Qc_of_Z z.
Proof.
  intros Hz. unfold Qclt. rewrite this_of_Z.
  change (this 0) with (inject_Z 0). now rewrite <- Zlt_Qlt.
Qed.

Lemma Qc_of_Z_nonneg (z : Z) : (0 <= z)%Z -> 0 <= Qc_of_Z z.
Proof.
  intros Hz. unfold Qcle. rewrite this_of_Z.
  change (this 0) with (inject_Z 0). now rewrite <- Zle_Qle.
Qed.

Lemma Qc_of_Z_neq0 (z : Z) : (0 < z)%Z -> Qc_of_Z z <> 0.
Proof.
  intros Hz E. apply Qc_of_Z_pos in Hz. rewrite E in Hz.
  exact (Qclt_not_eq _ _ Hz eq_refl).
Qed.

Lemma Qc_of_nat_pos (n : nat) : (0 < n)%nat -> 0 < Qc_of_nat n.
Proof. intros Hn. apply Qc_of_Z_pos. lia. Qed.

Lemma Qc_of_Z_le (x y : Z) : (x <= y)%Z -> Qc_of_Z x <= Qc_of_Z y.
Proof.
  intros H. unfold Qcle. rewrite !this_of_Z. now rewrite <- Zle_Qle.
Qed.

Lemma compare_pos (a : Qc) : 0 < a -> (a ?= 0) = Gt.
Proof. intros H. now apply Qcgt_alt. Qed.

Lemma compare_zero : ((0 : Qc) ?= 0) = Eq.
Proof. reflexivity. Qed.

Lemma Qc_square_nonneg (a : Qc) : 0 <= a * a.
Proof. unfold Qcle. rewrite this_mult. change (this 0) with 0%Q. nra. Qed.

Lemma Qc_add_nonneg (a b : Qc) : 0 <= a -> 0 <= b -> 0 <= a + b.
Proof.
  unfold Qcle. rewrite this_plus. change (this 0) with 0%Q. intros; lra.
Qed.

Lemma Qc_div_nonneg (a b : Qc) : 0 <= a -> 0 < b -> 0 <= a / b.
Proof.
  unfold Qcle, Qclt. rewrite this_div. change (this 0) with 0%Q.
  intros Ha Hb. apply Qmult_le_0_compat; [exact Ha|].
  apply Qlt_le_weak, Qinv_lt_0_compat, Hb.
Qed.


Lemma square_NaN : Float.square NaN = NaN.
Proof. reflexivity. Qed.

Lemma leb_Fin (a b : Qc) : a <= b -> leb (Fin a) (Fin b) = true.
Proof.
  intros H. simpl. destruct (Qc_compare_spec a b); try reflexivity.
  exfalso. exact (Qcle_not_lt _ _ H H0).
Qed.


Lemma eqb_eq (x y : fl) : Float.eqb x y = true -> x = y.
Proof.
  destruct x, y; simpl; try discriminate; try reflexivity.
  intros H. f_equal. now apply Qc_eq_bool_correct.
Qed.

(** Sums of finite, non-negative values. *)
Lemma fold_add_nonneg (l : list fl) (acc : Qc) :
  Forall nonneg l -> 0 <= acc ->
  exists q, fold_left add l (Fin acc) = Fin q /\ 0 <= q.
Proof.
  revert acc. induction l as [|x l IH]; intros acc Hl Hacc; simpl.
  - now exists acc.
  - inversion Hl as [|? ? [a [-> Ha]] Hl']; subst. simpl.
    apply IH; [assumption | now apply Qc_add_nonneg].
Qed.

Lemma sum_nonneg (l : list fl) : Forall nonneg l -> nonneg (Float.sum l).
Proof. intros Hl. apply fold_add_nonneg; [assumption | apply Qcle_refl]. Qed.

Lemma square_nonneg (x : fl) : is_finite x = true -> nonneg (Float.square x).
Proof.
  destruct x as [a| | |]; try discriminate. intros _.
  exists (a * a). split; [reflexivity | apply Qc_square_nonneg].
Qed.

Lemma mean_nonneg (x : fl) (k : nat) :
  nonneg x -> (0 < k)%nat -> nonneg (div x (of_nat k)).
Proof.
  intros [a [-> Ha]] Hk. unfold of_nat. simpl.
  rewrite (compare_pos _ (Qc_of_nat_pos k Hk)).
  eexists; split; [reflexivity|].
  apply Qc_div_nonneg; [assumption | now apply Qc_of_nat_pos].
Qed.


(** Scaling commutes with the sum of finite values. *)
Lemma fold_add_scale (c : Qc) (l : list fl) (acc : Qc) :
  Forall nonneg l ->
  fold_left add (map (mul (Fin c)) l) (Fin (c * acc))
  = mul (Fin c) (fold_left add l (Fin acc)).
Proof.
  revert acc. induction l as [|x l IH]; intros acc Hl; [reflexivity|].
  inversion Hl as [|? ? [a [-> Ha]] Hl']; subst. cbn [fold_left map].
  change (add (Fin acc) (Fin a)) with (Fin (acc + a)).
  rewrite <- IH by assumption. f_equal. simpl. f_equal. ring.
Qed.

Lemma sum_scale (c : Qc) (l : list fl) :
  Forall nonneg l ->
  Float.sum (map (mul (Fin c)) l) = mul (Fin c) (Float.sum l).
Proof.
  intros Hl. unfold Float.sum, zero.
  rewrite <- (fold_add_scale c l 0 Hl). f_equal. f_equal. ring.
Qed.

Lemma square_scale (c : Qc) (x : fl) :
  is_finite x = true ->
  Float.square (mul (Fin c) x) = mul (Fin (c * c)) (Float.square x).
Proof.
  destruct x as [a| | |]; try discriminate. intros _. simpl. f_equal. ring.
Qed.

Lemma Qc_mult_pos_compare (k a : Qc) : 0 < k -> (k * a ?= 0) = (a ?= 0).
Proof.
  intros Hk.
  destruct (Qc_compare_spec a 0) as [Ha|Ha|Ha].
  - subst a. replace (k * 0) with (0 : Qc) by ring. reflexivity.
  - apply (proj1 (Qclt_alt _ _)). unfold Qclt in *. rewrite this_mult.
    change (this 0) with 0%Q in *. nra.
  - apply (proj1 (Qcgt_alt _ _)). unfold Qclt in *. rewrite this_mult.
    change (this 0) with 0%Q in *. nra.
Qed.

(** [(k a) / b = k (a / b)] for a finite [a], a factor [k >= 0] and any
    divisor [b], zero, infinite or [nan] included. *)
Lemma div_scale (k a : Qc) (b : fl) :
  0 <= k -> div (Fin (k * a)) b = mul (Fin k) (div (Fin a) b).
Proof.
  intros Hk. destruct b as [b| | |]; simpl; try reflexivity.
  - destruct (Qc_compare_spec b 0) as [Hb|Hb|Hb].
    + destruct (Qcle_lt_or_eq _ _ Hk) as [Hpos|Hz].
      * rewrite (Qc_mult_pos_compare k a Hpos).
        destruct (a ?= 0); simpl; try reflexivity;
          now rewrite (compare_pos k Hpos).
      * subst k. replace (0 * a) with (0 : Qc) by ring.
        rewrite compare_zero. simpl.
        destruct (a ?= 0); simpl; reflexivity.
    + simpl. f_equal. field. now apply Qclt_not_eq.
    + simpl. f_equal. field. intros E. rewrite E in Hb.
      exact (Qclt_not_eq _ _ Hb eq_refl).
  - f_equal. ring.
  - f_equal. ring.
Qed.

(* ================================================================== *)
(** ** The numpy reductions, per band *)

Lemma size_of_1 (a : nat) : size_of [a] = a.
Proof. unfold size_of. simpl. lia. Qed.

Lemma size_of_2 (a b : nat) : size_of [a; b] = (a * b)%nat.
Proof. unfold size_of. simpl. lia. Qed.

Lemma column_square (n m : nat) (d : list fl) (j : nat) :
  column n m (map Float.square d) j
  = map (fun v => Float.square (nth (v * m + j)%nat d NaN)) (seq 0 n).
Proof.
  unfold column. apply map_ext. intros v.
  rewrite <- square_NaN at 1. apply map_nth.
Qed.

Lemma sum_axis0_square (n : nat) (rest : list nat) (d : list fl) :
  sum_axis0 (square (mk_ndarray (n :: rest) d))
  = Ok (mk_ndarray rest
          (map (fun j =>
                  Float.sum
                    (map (fun v => Float.square (nth (v * size_of rest + j)%nat d NaN))
                         (seq 0 n)))
               (seq 0 (size_of rest)))).
Proof.
  unfold sum_axis0, square, amap. cbn [shape data].
  do 2 f_equal. apply map_ext. intros j. now rewrite column_square.
Qed.

Lemma sig_dist_vec (n nf : nat) (d : list fl) :
  sig_dist (mk_ndarray [n; nf] d)
  = Ok (mk_ndarray [nf] (map (vec_energy n nf d) (seq 0 nf))).
Proof.
  unfold sig_dist. rewrite sum_axis0_square. cbn [ndim shape length Nat.ltb Nat.leb].
  rewrite size_of_1. reflexivity.
Qed.

Lemma mean_of_sums (n k nf : nat) (d : list fl) :
  mean_axis0
    (mk_ndarray [k; nf]
       (map (fun j =>
               Float.sum
                 (map (fun v => Float.square (nth (v * size_of [k; nf] + j)%nat d NaN))
                      (seq 0 n)))
            (seq 0 (size_of [k; nf]))))
  = Ok (mk_ndarray [nf] (map (batch_energy n k nf d) (seq 0 nf))).
Proof.
  unfold mean_axis0. cbn [shape data]. rewrite size_of_1, size_of_2.
  do 2 f_equal. apply map_seq_ext. intros i Hi.
  unfold batch_energy, node_sum. do 2 f_equal. unfold column.
  apply map_seq_ext. intros j Hj.
  rewrite nth_map_seq by nia.
  f_equal. apply map_ext. intros v. do 2 f_equal. lia.
Qed.

Lemma sig_dist_batch (n k nf : nat) (d : list fl) :
  sig_dist (mk_ndarray [n; k; nf] d)
  = Ok (squeeze (mk_ndarray [nf] (map (batch_energy n k nf d) (seq 0 nf)))).
Proof.
  unfold sig_dist. rewrite sum_axis0_square.
  cbn [ndim shape length Nat.ltb Nat.leb].
  now rewrite mean_of_sums.
Qed.

Lemma eig_dist_batch (n k nf : nat) (d : list fl) :
  eig_dist (mk_ndarray [n; k; nf] d)
  = Ok (squeeze (mk_ndarray [nf] (map (batch_energy n k nf d) (seq 0 nf)))).
Proof.
  unfold eig_dist. rewrite sum_axis0_square. now rewrite mean_of_sums.
Qed.

(** When the probe answer has only two axes, the unconditional mean over
    axis 0 runs over the bands: [eig_dist] is a single number. *)
Lemma eig_dist_matrix (n nf : nat) (d : list fl) :
  eig_dist (mk_ndarray [n; nf] d)
  = Ok (mk_ndarray []
          [div (Float.sum (map (fun i => vec_energy n nf d i) (seq 0 nf)))
               (of_nat nf)]).
Proof.
  unfold eig_dist. rewrite sum_axis0_square. unfold mean_axis0.
  cbn [shape data]. rewrite size_of_1. unfold squeeze. cbn [shape data filter].
  change (size_of []) with 1%nat. cbn [seq map]. do 5 f_equal.
  unfold column. apply map_seq_ext. intros i Hi.
  rewrite Nat.mul_1_r, Nat.add_0_r. now rewrite nth_map_seq.
Qed.

Lemma squeeze_vec {A} (nf : nat) (d : list A) :
  squeeze (mk_ndarray [nf] d)
  = mk_ndarray (if (nf =? 1)%nat then [] else [nf]) d.
Proof.
  unfold squeeze. cbn [shape data filter]. now destruct (nf =? 1)%nat.
Qed.

(* ================================================================== *)
(** ** Broadcast division on the shapes that occur *)

Lemma divide_vec_vec (n : nat) (d1 d2 : list fl) :
  divide (mk_ndarray [n] d1) (mk_ndarray [n] d2)
  = Ok (mk_ndarray [n]
          (map (fun v => div (nth v d1 NaN) (nth v d2 NaN)) (seq 0 n))).
Proof.
  unfold divide. cbn [ndim shape data length Nat.max pad_shape Nat.sub repeat app].
  cbn [broadcast_shape]. rewrite Nat.eqb_refl.
  cbn [broadcast_data]. rewrite flat_map_singleton.
  change (size_of []) with 1%nat.
  replace (if (n =? 1)%nat then n else n) with n by now destruct (n =? 1)%nat.
  do 2 f_equal. apply map_seq_ext. intros v Hv. rewrite !nth_0_row.
  destruct (n =? 1)%nat eqn:E; [|reflexivity].
  apply Nat.eqb_eq in E. now replace v with 0%nat by lia.
Qed.

Lemma divide_vec_scalar (n : nat) (d1 d2 : list fl) :
  divide (mk_ndarray [n] d1) (mk_ndarray [] d2)
  = Ok (mk_ndarray [n]
          (map (fun v => div (nth v d1 NaN) (nth 0 d2 NaN)) (seq 0 n))).
Proof.
  unfold divide. cbn [ndim shape data length Nat.max pad_shape Nat.sub repeat app].
  cbn [broadcast_shape Nat.eqb].
  replace (if (n =? 1)%nat then Some [n] else if (n =? 1)%nat then Some [1%nat] else Some [n])
    with (Some [n]) by (destruct (n =? 1)%nat eqn:E; reflexivity).
  cbn [broadcast_data Nat.eqb]. rewrite flat_map_singleton.
  change (size_of []) with 1%nat.
  replace (if (n =? 1)%nat then 1%nat else n) with n
    by (destruct (n =? 1)%nat eqn:E; [now apply Nat.eqb_eq in E | reflexivity]).
  do 2 f_equal. apply map_seq_ext. intros v Hv. rewrite !nth_0_row.
  destruct (n =? 1)%nat eqn:E; [|reflexivity].
  apply Nat.eqb_eq in E. now replace v with 0%nat by lia.
Qed.

Lemma divide_scalar_scalar (d1 d2 : list fl) :
  divide (mk_ndarray [] d1) (mk_ndarray [] d2)
  = Ok (mk_ndarray [] [div (nth 0 d1 NaN) (nth 0 d2 NaN)]).
Proof. reflexivity. Qed.

(* ================================================================== *)
(** ** Running the estimator *)

Lemma linspace_negative (a b : fl) (num : Z) :
  (num < 0)%Z -> linspace a b num = Raise ValueError.
Proof.
  intros H. unfold linspace. now apply Z.ltb_lt in H as ->.
Qed.

Lemma length_set_last (y : list fl) (x : fl) : length (set_last y x) = length y.
Proof.
  destruct y as [|a y]; [reflexivity|]. unfold set_last.
  rewrite length_app, removelast_firstn_len, length_firstn. simpl. lia.
Qed.

Lemma linspace_ok (a b : fl) (num : Z) :
  (0 <= num)%Z ->
  exists y, linspace a b num = Ok (mk_ndarray [Z.to_nat num] y)
            /\ length y = Z.to_nat num.
Proof.
  intros H. unfold linspace.
  destruct (num <? 0)%Z eqn:E; [apply Z.ltb_lt in E; lia|].
  eexists; split; [reflexivity|].
  destruct (1 <? num)%Z; [rewrite length_set_last|];
    try destruct (is_zero _);
    now rewrite !length_map, ?length_seq; unfold arange;
    rewrite ?length_map, ?length_seq.
Qed.

Section Runs.

Context {pg : PyGSP}.
Variables (graph : Graph pg) (signal : ndarray fl) (n_rand n_point : Z).
Variable rs : RandomState.

Lemma random_binomial_run :
  (0 <= n_rand)%Z ->
  random_binomial [Z.of_nat (N graph); n_rand] rs
  = (Ok (mk_ndarray [N graph; Z.to_nat n_rand]
           (map bernoulli (draws rs (size_of [N graph; Z.to_nat n_rand])))),
     advance rs (size_of [N graph; Z.to_nat n_rand])).
Proof.
  intros H. unfold random_binomial. cbn [existsb map].
  replace (Z.of_nat (N graph) <? 0)%Z with false by (symmetry; apply Z.ltb_ge; lia).
  replace (n_rand <? 0)%Z with false by (symmetry; apply Z.ltb_ge; lia).
  cbn [orb]. now rewrite Nat2Z.id.
Qed.

Lemma rand_sig_run :
  (0 <= n_rand)%Z ->
  rand_sig graph n_rand rs
  = (Ok (probes (N graph) n_rand rs),
     advance rs (size_of [N graph; Z.to_nat n_rand])).
Proof.
  intros H. unfold rand_sig, bind. rewrite random_binomial_run by assumption.
  unfold ret, probes, probe_of_draws, sub_scalar, mul_scalar, amap.
  cbn [shape data]. now rewrite !map_map.
Qed.

Lemma rand_sig_negative :
  (n_rand < 0)%Z -> rand_sig graph n_rand rs = (Raise ValueError, rs).
Proof.
  intros H. unfold rand_sig, bind, random_binomial. cbn [existsb].
  apply Z.ltb_lt in H as ->. now rewrite orb_true_r.
Qed.

(** The estimator on a call whose collaborators and numpy steps all
    answered. *)
Lemma estimate_run (g : Filter pg) (spectrum sig_filt sd rand_filt ed psd : ndarray fl) :
  (0 <= n_rand)%Z ->
  Itersine graph n_point 2 = Ok g ->
  linspace zero (Fin (lmax graph)) n_point = Ok spectrum ->
  filter_chebyshev g signal (2 * n_point) = Ok sig_filt ->
  sig_dist sig_filt = Ok sd ->
  filter_chebyshev g (as_float (probes (N graph) n_rand rs)) (2 * n_point)
    = Ok rand_filt ->
  eig_dist rand_filt = Ok ed ->
  divide sd ed = Ok psd ->
  estimate_graph_psd pg graph signal n_rand n_point rs
  = (Ok (spectrum, psd), advance rs (size_of [N graph; Z.to_nat n_rand])).
Proof.
  intros Hr Hg Hs Hf Hsd Hp Hed Hd.
  unfold estimate_graph_psd, bind, lift.
  rewrite Hg, Hs, Hf, Hsd, (rand_sig_run Hr), Hp, Hed, Hd. reflexivity.
Qed.

(** Conversely, a call that returned went through every step. *)
Lemma estimate_inv (spectrum psd : ndarray fl) (rs' : RandomState) :
  estimate_graph_psd pg graph signal n_rand n_point rs = (Ok (spectrum, psd), rs') ->
  exists g sig_filt sd rand_filt ed,
    (0 <= n_rand)%Z /\
    Itersine graph n_point 2 = Ok g /\
    linspace zero (Fin (lmax graph)) n_point = Ok spectrum /\
    filter_chebyshev g signal (2 * n_point) = Ok sig_filt /\
    sig_dist sig_filt = Ok sd /\
    filter_chebyshev g (as_float (probes (N graph) n_rand rs)) (2 * n_point)
      = Ok rand_filt /\
    eig_dist rand_filt = Ok ed /\
    divide sd ed = Ok psd /\
    rs' = advance rs (size_of [N graph; Z.to_nat n_rand]).
Proof.
  unfold estimate_graph_psd, bind, lift.
  destruct (Itersine graph n_point 2) as [g|] eqn:Hg; [|discriminate].
  destruct (linspace zero (Fin (lmax graph)) n_point) as [sp|] eqn:Hs; [|discriminate].
  destruct (filter_chebyshev g signal (2 * n_point)) as [sf|] eqn:Hf; [|discriminate].
  destruct (sig_dist sf) as [sd|] eqn:Hsd; [|discriminate].
  destruct (Z_lt_le_dec n_rand 0) as [Hneg|Hr].
  { rewrite (rand_sig_negative Hneg). discriminate. }
  rewrite (rand_sig_run Hr).
  destruct (filter_chebyshev g (as_float (probes (N graph) n_rand rs)) (2 * n_point))
    as [rf|] eqn:Hp; [|discriminate].
  destruct (eig_dist rf) as [ed|] eqn:Hed; [|discriminate].
  destruct (divide sd ed) as [q|] eqn:Hd; [|discriminate].
  unfold ret. intros E. inversion E; subst.
  exists g, sf, sd, rf, ed. repeat split; try assumption; reflexivity.
Qed.

(** A call whose collaborators gave per-band answers returns, and its psd
    holds the band ratios of the two energies. *)
Lemma analysis_run (g : Filter pg) (sig_filt rand_filt : ndarray fl) :
  (0 <= n_point)%Z -> (0 <= n_rand)%Z ->
  Analysis pg graph signal n_rand n_point rs g sig_filt rand_filt ->
  exists spectrum psd,
    estimate_graph_psd pg graph signal n_rand n_point rs
    = (Ok (spectrum, psd), advance rs (size_of [N graph; Z.to_nat n_rand]))
    /\ linspace zero (Fin (lmax graph)) n_point = Ok spectrum
    /\ shape psd = (if ((Z.to_nat n_point =? 1) && (ndim signal =? 2))%nat
                    then [] else [Z.to_nat n_point])
    /\ data psd = map (fun i => div (signal_energy sig_filt i)
                                    (reference_energy rand_filt i))
                      (seq 0 (Z.to_nat n_point)).
Proof.
  intros Hn Hr [Hg Hf Hp Hsig Hrand].
  destruct (linspace_ok zero (Fin (lmax graph)) n_point Hn) as [y [Hs _]].
  set (nf := Z.to_nat n_point) in *.
  destruct rand_filt as [rsh rd]. cbn [shape] in Hrand. subst rsh.
  assert (Hed := eig_dist_batch (N graph) (Z.to_nat n_rand) nf rd).
  rewrite squeeze_vec in Hed.
  unfold reference_energy. cbn [shape data].
  destruct sig_filt as [ssh sdt]. unfold per_band in Hsig. cbn [shape] in Hsig.
  unfold signal_energy. cbn [shape data]. unfold ndim.
  destruct (shape signal) as [|n0 [|k [|? ?]]]; try contradiction; subst ssh.
  - (* a vector *)
    assert (Hsd := sig_dist_vec (N graph) nf sdt).
    rewrite andb_false_r.
    destruct (nf =? 1)%nat eqn:E.
    + eexists _, _. split; [|split; [exact Hs|]].
      * eapply estimate_run; eauto. apply divide_vec_scalar.
      * cbn [shape data]. split; [reflexivity|].
        apply Nat.eqb_eq in E. rewrite E. cbn [seq map]. reflexivity.
    + eexists _, _. split; [|split; [exact Hs|]].
      * eapply estimate_run; eauto. apply divide_vec_vec.
      * cbn [shape data]. split; [reflexivity|].
        apply map_seq_ext. intros i Hi. now rewrite !nth_map_seq.
  - (* a batch *)
    assert (Hsd := sig_dist_batch (N graph) k nf sdt).
    rewrite squeeze_vec in Hsd. rewrite andb_true_r.
    destruct (nf =? 1)%nat eqn:E.
    + eexists _, _. split; [|split; [exact Hs|]].
      * eapply estimate_run; eauto. apply divide_scalar_scalar.
      * cbn [shape data]. split; [reflexivity|].
        apply Nat.eqb_eq in E. rewrite E. cbn [seq map]. reflexivity.
    + eexists _, _. split; [|split; [exact Hs|]].
      * eapply estimate_run; eauto. apply divide_vec_vec.
      * cbn [shape data]. split; [reflexivity|].
        apply map_seq_ext. intros i Hi. now rewrite !nth_map_seq.
Qed.

End Runs.

(* ================================================================== *)
(** ** [np.linspace] *)

Lemma nth_set_last (y : list fl) (x : fl) (i : nat) :
  (i < length y)%nat ->
  nth i (set_last y x) NaN
  = if (i =? length y - 1)%nat then x else nth i y NaN.
Proof.
  intros Hi. destruct y as [|a y]; [inversion Hi|].
  unfold set_last. rewrite removelast_firstn_len.
  remember (a :: y) as l. assert (Hl : (0 < length l)%nat) by (subst; simpl; lia).
  replace (Nat.pred (length l)) with (length l - 1)%nat by lia.
  destruct (i =? length l - 1)%nat eqn:E.
  - apply Nat.eqb_eq in E. rewrite app_nth2 by (rewrite length_firstn; lia).
    rewrite length_firstn. now replace (i - _)%nat with 0%nat by lia.
  - apply Nat.eqb_neq in E. rewrite app_nth1 by (rewrite length_firstn; lia).
    rewrite nth_firstn. now replace (i <? length l - 1)%nat with true
      by (symmetry; apply Nat.ltb_lt; lia).
Qed.

Lemma Qc_of_nat_0 : Qc_of_nat 0 = 0.
Proof. apply Qc_is_canon. reflexivity. Qed.

Lemma linspace_single (q : Qc) :
  linspace zero (Fin q) 1 = Ok (mk_ndarray [1%nat] [zero]).
Proof.
  unfold linspace, arange, zero, of_nat. simpl. rewrite Qc_of_nat_0.
  replace (0 * (q + - 0) + 0) with (0 : Qc) by ring. reflexivity.
Qed.

(** Every point of a grid of at least two points, the last one included. *)
Lemma linspace_item (q : Qc) (num : Z) (y : ndarray fl) (i : nat) :
  (2 <= num)%Z -> (i < Z.to_nat num)%nat ->
  linspace zero (Fin q) num = Ok y ->
  item y i = Fin (Qc_of_nat i * q / Qc_of_Z (num - 1)).
Proof.
  intros Hnum Hi. unfold linspace.
  replace (num <? 0)%Z with false by (symmetry; apply Z.ltb_ge; lia).
  replace (1 <? num)%Z with true by (symmetry; apply Z.ltb_lt; lia).
  assert (Hpos : 0 < Qc_of_Z (num - 1)) by (apply Qc_of_Z_pos; lia).
  assert (Hne : Qc_of_Z (num - 1) <> 0) by (apply Qc_of_Z_neq0; lia).
  intros E. inversion E; subst y; clear E. unfold item. cbn [data].
  set (n := Z.to_nat num) in *.
  assert (Hlen : forall F : fl -> fl,
             length (map (fun v => add v zero) (map F (arange n))) = n)
    by (intros F; unfold arange; now rewrite !length_map, length_seq).
  assert (Hnth : forall F : fl -> fl,
             nth i (map (fun v => add v zero) (map F (arange n))) NaN
             = add (F (of_nat i)) zero).
  { intros F. unfold arange. rewrite !map_map.
    exact (nth_map_seq (fun x => add (F (of_nat x)) zero) n i NaN Hi). }
  match goal with
  | |- nth i (set_last (map _ ?inner) _) _ = _ =>
      assert (Hl : length (map (fun v => add v zero) inner) = n)
        by (destruct (is_zero _); apply Hlen);
      assert (Hv : nth i (map (fun v => add v zero) inner) NaN
                   = Fin (Qc_of_nat i * q / Qc_of_Z (num - 1)))
  end.
  { destruct (is_zero _); rewrite Hnth;
      unfold sub, neg, zero, of_Z, of_nat; cbn [add mul div];
      rewrite ?(compare_pos _ Hpos); cbn [add mul div]; f_equal; now field. }
  rewrite nth_set_last by (rewrite Hl; exact Hi). rewrite Hl.
  destruct (i =? n - 1)%nat eqn:Ei; [|exact Hv].
  apply Nat.eqb_eq in Ei. f_equal.
  replace (Qc_of_nat i) with (Qc_of_Z (num - 1)); [now field|].
  unfold Qc_of_nat. f_equal. subst n. lia.
Qed.

Lemma linspace_shape (a b : fl) (num : Z) (y : ndarray fl) :
  linspace a b num = Ok y ->
  (0 <= num)%Z /\ shape y = [Z.to_nat num] /\ length (data y) = Z.to_nat num.
Proof.
  intros E. destruct (Z_lt_le_dec num 0) as [Hneg|Hpos].
  - rewrite (linspace_negative a b num Hneg) in E. discriminate.
  - destruct (linspace_ok a b num Hpos) as [d [E' Hd]].
    rewrite E' in E. inversion E; subst. now repeat split.
Qed.

Lemma Qc_grid_le (i j : nat) (q d : Qc) :
  (i <= j)%nat -> 0 <= q -> 0 < d ->
  Qc_of_nat i * q / d <= Qc_of_nat j * q / d.
Proof.
  intros Hij Hq Hd.
  assert (H : Qc_of_nat i <= Qc_of_nat j) by (apply Qc_of_Z_le; lia).
  unfold Qcle, Qclt in *. rewrite !this_div, !this_mult.
  change (this 0) with 0%Q in *.
  apply Qmult_le_compat_r; [nra|].
  apply Qlt_le_weak, Qinv_lt_0_compat, Hd.
Qed.

(* ================================================================== *)
(** ** Band energies of finite arrays *)

Section Energies.

Variable d : list fl.
Variables n : nat.
Variable idx : nat -> nat.
Hypothesis in_range : forall v, (v < n)%nat -> (idx v < length d)%nat.

Lemma node_terms_nonneg :
  forallb is_finite d = true ->
  Forall nonneg (map (fun v => Float.square (nth (idx v) d NaN)) (seq 0 n)).
Proof.
  intros Hfin. apply Forall_forall. intros x Hx.
  apply in_map_iff in Hx as [v [<- Hv]]. apply in_seq in Hv.
  apply square_nonneg.
  apply (proj1 (forallb_forall _ _) Hfin). apply nth_In. apply in_range. lia.
Qed.

Lemma node_sum_nonneg : forallb is_finite d = true -> nonneg (node_sum d n idx).
Proof. intros Hfin. apply sum_nonneg, node_terms_nonneg, Hfin. Qed.

Lemma node_sum_scale (c : Qc) :
  forallb is_finite d = true ->
  node_sum (map (mul (Fin c)) d) n idx = mul (Fin (c * c)) (node_sum d n idx).
Proof.
  intros Hfin. unfold node_sum.
  rewrite <- (sum_scale (c * c)) by (apply node_terms_nonneg, Hfin).
  rewrite map_map. f_equal. apply map_seq_ext. intros v Hv.
  rewrite (map_nth_in (mul (Fin c)) d (idx v) NaN NaN) by (now apply in_range).
  apply square_scale.
  apply (proj1 (forallb_forall _ _) Hfin). apply nth_In. now apply in_range.
Qed.


End Energies.

Lemma finite_array_parts (a : ndarray fl) :
  finite_array a = true ->
  length (data a) = size_of (shape a) /\ forallb is_finite (data a) = true.
Proof.
  unfold finite_array. intros H. apply andb_true_iff in H as [H1 H2].
  apply Nat.eqb_eq in H1. now split.
Qed.

Lemma size_of_3 (a b c : nat) : size_of [a; b; c] = (a * (b * c))%nat.
Proof. unfold size_of. simpl. lia. Qed.

Section BandEnergies.

Variables (n k nf : nat) (d : list fl) (i : nat).
Hypothesis band : (i < nf)%nat.

Lemma vec_index (v : nat) : (v < n)%nat -> (v * nf + i < n * nf)%nat.
Proof.
  intros Hv. assert (H : (S v * nf <= n * nf)%nat) by (apply Nat.mul_le_mono_r; lia).
  simpl in H. lia.
Qed.

Lemma batch_index (j v : nat) :
  (j < k)%nat -> (v < n)%nat -> (v * (k * nf) + j * nf + i < n * (k * nf))%nat.
Proof.
  intros Hj Hv.
  assert (H1 : (S j * nf <= k * nf)%nat) by (apply Nat.mul_le_mono_r; lia).
  assert (H2 : (S v * (k * nf) <= n * (k * nf))%nat) by (apply Nat.mul_le_mono_r; lia).
  simpl in H1, H2. lia.
Qed.

Lemma vec_energy_nonneg :
  length d = (n * nf)%nat -> forallb is_finite d = true ->
  nonneg (vec_energy n nf d i).
Proof.
  intros Hl Hfin. apply node_sum_nonneg; [|assumption].
  intros v Hv. rewrite Hl. now apply vec_index.
Qed.

Lemma vec_energy_scale (c : Qc) :
  length d = (n * nf)%nat -> forallb is_finite d = true ->
  vec_energy n nf (map (mul (Fin c)) d) i = mul (Fin (c * c)) (vec_energy n nf d i).
Proof.
  intros Hl Hfin. apply node_sum_scale; [|assumption].
  intros v Hv. rewrite Hl. now apply vec_index.
Qed.


Lemma column_sums_nonneg :
  length d = (n * (k * nf))%nat -> forallb is_finite d = true ->
  Forall nonneg
    (map (fun j => node_sum d n (fun v => v * (k * nf) + j * nf + i)%nat)
         (seq 0 k)).
Proof.
  intros Hl Hfin. apply Forall_forall. intros x Hx.
  apply in_map_iff in Hx as [j [<- Hj]]. apply in_seq in Hj.
  apply (node_sum_nonneg d n (fun v => v * (k * nf) + j * nf + i)%nat); [|assumption].
  intros v Hv. rewrite Hl. apply batch_index; lia.
Qed.

Lemma batch_energy_nonneg :
  length d = (n * (k * nf))%nat -> forallb is_finite d = true -> (0 < k)%nat ->
  nonneg (batch_energy n k nf d i).
Proof.
  intros Hl Hfin Hk. unfold batch_energy.
  apply mean_nonneg; [|assumption].
  apply sum_nonneg. now apply column_sums_nonneg.
Qed.

Lemma batch_energy_scale (c : Qc) :
  length d = (n * (k * nf))%nat -> forallb is_finite d = true ->
  batch_energy n k nf (map (mul (Fin c)) d) i
  = mul (Fin (c * c)) (batch_energy n k nf d i).
Proof.
  intros Hl Hfin. unfold batch_energy.
  assert (Hs := sum_nonneg _ (column_sums_nonneg Hl Hfin)).
  destruct Hs as [s [Hs _]]. rewrite Hs.
  rewrite <- div_scale by apply Qc_square_nonneg.
  f_equal. change (Fin (c * c * s)) with (mul (Fin (c * c)) (Fin s)).
  rewrite <- Hs, <- sum_scale by (now apply column_sums_nonneg).
  rewrite map_map. f_equal. apply map_seq_ext. intros j Hj.
  apply (node_sum_scale d n (fun v => v * (k * nf) + j * nf + i)%nat); [|assumption].
  intros v Hv. rewrite Hl. now apply batch_index.
Qed.


End BandEnergies.

(* ================================================================== *)
(** ** Energies of the per-band answers *)

Lemma signal_energy_nonneg (n nf : nat) (signal sig_filt : ndarray fl) (i : nat) :
  per_band n nf signal sig_filt -> finite_array sig_filt = true ->
  (1 <= width signal)%nat -> (i < nf)%nat ->
  nonneg (signal_energy sig_filt i).
Proof.
  intros Hpb Hfin Hw Hi. apply finite_array_parts in Hfin as [Hl Hf].
  unfold per_band, width in *. unfold signal_energy.
  destruct (shape signal) as [|n0 [|k [|? ?]]]; try contradiction;
    rewrite Hpb in *.
  - rewrite size_of_2 in Hl. now apply vec_energy_nonneg.
  - rewrite size_of_3 in Hl. apply batch_energy_nonneg; try assumption; lia.
Qed.

Lemma reference_energy_nonneg (n k nf : nat) (rand_filt : ndarray fl) (i : nat) :
  shape rand_filt = [n; k; nf] -> finite_array rand_filt = true ->
  (0 < k)%nat -> (i < nf)%nat ->
  nonneg (reference_energy rand_filt i).
Proof.
  intros Hs Hfin Hk Hi. apply finite_array_parts in Hfin as [Hl Hf].
  unfold reference_energy. rewrite Hs in *. rewrite size_of_3 in Hl.
  now apply batch_energy_nonneg.
Qed.

Lemma signal_energy_scale (c : Qc) (n nf : nat) (signal sig_filt : ndarray fl) (i : nat) :
  per_band n nf signal sig_filt -> finite_array sig_filt = true -> (i < nf)%nat ->
  signal_energy (scale c sig_filt) i = mul (Fin (c * c)) (signal_energy sig_filt i).
Proof.
  intros Hpb Hfin Hi. apply finite_array_parts in Hfin as [Hl Hf].
  unfold per_band in *. unfold signal_energy, scale, amap. cbn [shape data].
  destruct (shape signal) as [|n0 [|k [|? ?]]]; try contradiction;
    rewrite Hpb in *.
  - rewrite size_of_2 in Hl. now apply vec_energy_scale.
  - rewrite size_of_3 in Hl. now apply batch_energy_scale.
Qed.


Lemma item_map_seq (a : ndarray fl) (F : nat -> fl) (m i : nat) :
  data a = map F (seq 0 m) -> (i < m)%nat -> item a i = F i.
Proof. intros Hd Hi. unfold item. rewrite Hd. now apply nth_map_seq. Qed.

(* ================================================================== *)
(** ** Properties of the estimator *)

(** X14.  The psd as a ratio of band energies.  On every call whose filter
    answers keep one axis per band (shape [(N, n_point)] for a vector
    signal, [(N, k, n_point)] for an [N x k] batch, and
    [(N, n_rand, n_point)] for the probes, as PyGSP answers when [N] and
    [n_point] are at least 2 and neither [k] nor [n_rand] is 1 or
    [n_point]), the call returns and, for every band [i] below [n_point],
    [psd[i]] is the signal energy of band [i] divided by its reference
    energy: the signal energy is the sum over all nodes of the squares of
    the signal filtered through the band (for a batch, the mean over the
    [k] columns of that sum), the reference energy is the mean over the
    [n_rand] probe columns of the sum over all nodes of the squares of the
    filtered probes. *)
Theorem per_band_answers_give_energy_ratio (pg : PyGSP) (graph : Graph pg)
    (signal : ndarray fl) (n_rand n_point : Z) (rs : RandomState)
    (g : Filter pg) (sig_filt rand_filt : ndarray fl) :
  (1 <= n_point)%Z -> (1 <= n_rand)%Z ->
  Analysis pg graph signal n_rand n_point rs g sig_filt rand_filt ->
  exists spectrum psd rs',
    estimate_graph_psd pg graph signal n_rand n_point rs = (Ok (spectrum, psd), rs')
    /\ forall i, (i < Z.to_nat n_point)%nat ->
         item psd i = div (signal_energy sig_filt i) (reference_energy rand_filt i).
Proof.
  intros Hn Hr HA.
  destruct (analysis_run graph signal n_rand n_point rs g sig_filt rand_filt)
    as [spectrum [psd [Hrun [_ [_ Hd]]]]]; try lia; try assumption.
  eexists spectrum, psd, _. split; [exact Hrun|].
  intros i Hi. now apply (item_map_seq psd _ _ i Hd).
Qed.

Lemma per_band_answers_give_energy_ratio_witness :
  exists spectrum psd rs',
    estimate_graph_psd Dense.pygsp Dense.path2 Dense.impulse 3 2 Dense.mixed
    = (Ok (spectrum, psd), rs')
    /\ forall i, (i < Z.to_nat 2)%nat ->
         item psd i = div (signal_energy (Dense.sig_filt Dense.impulse 2) i)
                          (reference_energy (Dense.rand_filt 3 2 Dense.mixed) i).
Proof.
  apply (per_band_answers_give_energy_ratio Dense.pygsp Dense.path2
           Dense.impulse 3 2 Dense.mixed Dense.bank2);
    [lia | lia | concrete_analysis].
Defined.

(** C2.  The code on a valid input where the psd is not the ratio of the
    band energies.  On the two-node path graph with the signal [(1, 0)],
    [n_rand = 1] and [n_point = 2], the filter answers the single probe
    column with a two-axis array [(N, n_point)].  The mean over axis 0 of
    the probe energies has no [ndim] guard (the mean of the signal energies
    has one), so it runs over the bands instead of the probes.  With the
    probe [(1, -1)] the call returns [psd = [1/2, 1/2]], while the ratios of
    the signal energy to the probe energy are [+inf] in band 0 and [1/4] in
    band 1. *)
Theorem single_probe_psd_is_not_the_band_ratio :
  @valid_input Dense.pygsp Dense.path2 Dense.impulse 1 2
  /\ shape (Dense.rand_filt 1 2 Dense.mixed) = [2%nat; 2%nat]
  /\ option_map
       (fun psd => nd_eqb psd (mk_ndarray [2%nat] [Fin Dense.half; Fin Dense.half]))
       (returned_psd (Dense.run Dense.impulse 1 2 Dense.mixed))
     = Some true
  /\ div (vec_energy 2 2 (data (Dense.sig_filt Dense.impulse 2)) 0)
         (vec_energy 2 2 (data (Dense.rand_filt 1 2 Dense.mixed)) 0)
     = PInf
  /\ Float.eqb
       (div (vec_energy 2 2 (data (Dense.sig_filt Dense.impulse 2)) 1)
            (vec_energy 2 2 (data (Dense.rand_filt 1 2 Dense.mixed)) 1))
       (Fin (Q2Qc (1 # 4)))
     = true.
Proof.
  split; [|repeat split; by_evaluation].
  repeat split; try lia; by_evaluation.
Qed.

(** C3 (as amended).  The spectrum a call returns is the grid of
    [np.linspace]: with [n_point >= 2] its element [i] is
    [i * lmax / (n_point - 1)] for every [i] below [n_point]; with
    [n_point = 1] it is [[0]].  So its first element is 0, its elements never
    decrease (for [lmax >= 0]), and the last element of a grid of two points
    or more is [lmax].  Values are exact: rounding is not modelled. *)
Theorem spectrum_is_linear_grid (pg : PyGSP) (graph : Graph pg) (signal : ndarray fl)
    (n_rand n_point : Z) (rs rs' : RandomState) (spectrum psd : ndarray fl) :
  estimate_graph_psd pg graph signal n_rand n_point rs = (Ok (spectrum, psd), rs') ->
  (n_point = 1%Z -> spectrum = mk_ndarray [1%nat] [zero])
  /\ ((2 <= n_point)%Z ->
      forall i, (i < Z.to_nat n_point)%nat ->
        item spectrum i = Fin (Qc_of_nat i * lmax graph / Qc_of_Z (n_point - 1)))
  /\ ((1 <= n_point)%Z -> item spectrum 0 = zero)
  /\ ((2 <= n_point)%Z -> item spectrum (Z.to_nat n_point - 1) = Fin (lmax graph))
  /\ (0 <= lmax graph -> sorted spectrum).
Proof.
  intros Hrun.
  destruct (estimate_inv graph signal n_rand n_point rs spectrum psd rs' Hrun)
    as [g [sf [sd [rf [ed [_ [_ [Hs _]]]]]]]].
  assert (Hone : n_point = 1%Z -> spectrum = mk_ndarray [1%nat] [zero]).
  { intros ->. rewrite linspace_single in Hs. now inversion Hs. }
  assert (Hitem : (2 <= n_point)%Z ->
            forall i, (i < Z.to_nat n_point)%nat ->
              item spectrum i = Fin (Qc_of_nat i * lmax graph / Qc_of_Z (n_point - 1))).
  { intros Hn i Hi. now apply linspace_item. }
  assert (Hne : (2 <= n_point)%Z -> Qc_of_Z (n_point - 1) <> 0)
    by (intros Hn; apply Qc_of_Z_neq0; lia).
  assert (Hfirst : (1 <= n_point)%Z -> item spectrum 0 = zero).
  { intros Hn. destruct (Z.eq_dec n_point 1) as [E|E].
    - now rewrite (Hone E).
    - rewrite Hitem by lia. rewrite Qc_of_nat_0. unfold zero. f_equal.
      field. apply Hne. lia. }
  repeat split; try assumption.
  - intros Hn. rewrite Hitem by lia. f_equal.
    replace (Qc_of_nat (Z.to_nat n_point - 1)) with (Qc_of_Z (n_point - 1))
      by (unfold Qc_of_nat; f_equal; lia).
    field. now apply Hne.
  - intros Hq i j Hij.
    destruct (linspace_shape _ _ _ _ Hs) as [Hn [_ Hlen]]. rewrite Hlen in Hij.
    destruct (Z_lt_le_dec n_point 2) as [Hsmall|Hbig].
    + assert (n_point = 1%Z) as E by lia.
      replace i with 0%nat by lia. replace j with 0%nat by lia.
      now rewrite (Hone E).
    + rewrite !Hitem by lia. apply leb_Fin.
      apply Qc_grid_le; [lia | assumption | apply Qc_of_Z_pos; lia].
Qed.

Lemma spectrum_is_linear_grid_witness :
  item (spectrum_of (Dense.run Dense.impulse 3 2 Dense.mixed)) 1
  = Fin (Qc_of_nat 1 * @lmax Dense.pygsp Dense.path2 / Qc_of_Z (2 - 1)).
Proof.
  refine (proj1 (proj2
            (spectrum_is_linear_grid Dense.pygsp Dense.path2 Dense.impulse 3 2
               Dense.mixed (snd (Dense.run Dense.impulse 3 2 Dense.mixed))
               (spectrum_of (Dense.run Dense.impulse 3 2 Dense.mixed))
               (psd_of (Dense.run Dense.impulse 3 2 Dense.mixed)) _)) _ 1%nat _);
    [by_evaluation | lia | simpl; lia].
Defined.

(** C3, as stated, fails in its last-element clause: a valid call with
    [n_point = 1] returns the spectrum [[0]], whose last element is 0 and
    not [lmax = 2]. *)
Lemma single_point_spectrum_ends_at_zero :
  @valid_input Dense.pygsp Dense.path2 Dense.impulse 2 1
  /\ option_map (fun s => item s (Z.to_nat 1 - 1))
       (returned_spectrum (Dense.run Dense.impulse 2 1 Dense.mixed))
     = Some zero
  /\ Float.eqb zero (Fin (@lmax Dense.pygsp Dense.path2)) = false.
Proof.
  split; [|split; by_evaluation].
  repeat split; try lia; by_evaluation.
Qed.

(** C5 (as amended).  With [n_point >= 2], whenever the filter's answer for
    the signal keeps its band axis (shape [(N, n_point)] for a vector,
    [(N, k, n_point)] for a batch) and its answer for the probes has shape
    [(N, n_rand, n_point)] or two axes, the call returns and
    [len(spectrum) = len(psd) = n_point].  (With [n_point = 1] the filter
    squeezes the band axis away, and the psd of a vector signal is a 0-d
    array.) *)
Theorem lengths_equal_n_point (pg : PyGSP) (graph : Graph pg) (signal : ndarray fl)
    (n_rand n_point : Z) (rs : RandomState)
    (g : Filter pg) (sig_filt rand_filt : ndarray fl) :
  (2 <= n_point)%Z -> (1 <= n_rand)%Z ->
  Itersine graph n_point 2 = Ok g ->
  filter_chebyshev g signal (2 * n_point) = Ok sig_filt ->
  filter_chebyshev g (as_float (probes (N graph) n_rand rs)) (2 * n_point)
    = Ok rand_filt ->
  (exists n, shape sig_filt = [n; Z.to_nat n_point])
  \/ (exists n k, shape sig_filt = [n; k; Z.to_nat n_point]) ->
  (exists n k, shape rand_filt = [n; k; Z.to_nat n_point])
  \/ (exists n m, shape rand_filt = [n; m]) ->
  exists spectrum psd rs',
    estimate_graph_psd pg graph signal n_rand n_point rs = (Ok (spectrum, psd), rs')
    /\ len spectrum = Ok (Z.to_nat n_point)
    /\ len psd = Ok (Z.to_nat n_point)
    /\ length (data spectrum) = Z.to_nat n_point
    /\ length (data psd) = Z.to_nat n_point.
Proof.
  intros Hn Hr Hg Hf Hp Hsig Hrand.
  destruct (linspace_ok zero (Fin (lmax graph)) n_point) as [y [Hs _]];
    [lia|].
  set (nf := Z.to_nat n_point) in *.
  set (spectrum := mk_ndarray [nf] y) in *.
  destruct (linspace_shape _ _ _ _ Hs) as [_ [Hssh Hsl]].
  assert (Hnf : (nf =? 1)%nat = false) by (apply Nat.eqb_neq; lia).
  assert (Hsd : exists d, sig_dist sig_filt = Ok (mk_ndarray [nf] d)).
  { destruct sig_filt as [ssh sdt]. cbn [shape] in Hsig.
    destruct Hsig as [[n E]|[n [k E]]]; subst ssh.
    - eexists. apply sig_dist_vec.
    - eexists. rewrite sig_dist_batch, squeeze_vec, Hnf. reflexivity. }
  destruct Hsd as [d Hsd].
  assert (Hed : exists ed psd,
            eig_dist rand_filt = Ok ed
            /\ divide (mk_ndarray [nf] d) ed = Ok psd
            /\ shape psd = [nf] /\ length (data psd) = nf).
  { destruct rand_filt as [rsh rd]. cbn [shape] in Hrand.
    destruct Hrand as [[n [k E]]|[n [m E]]]; subst rsh.
    - eexists _, _. rewrite eig_dist_batch, squeeze_vec, Hnf.
      split; [reflexivity|]. rewrite divide_vec_vec.
      split; [reflexivity|]. cbn [shape data].
      now rewrite length_map, length_seq.
    - eexists _, _. rewrite eig_dist_matrix.
      split; [reflexivity|]. rewrite divide_vec_scalar.
      split; [reflexivity|]. cbn [shape data].
      now rewrite length_map, length_seq. }
  destruct Hed as [ed [psd [Hed [Hd [Hpsh Hpl]]]]].
  exists spectrum, psd, (advance rs (size_of [N graph; Z.to_nat n_rand])).
  split.
  - apply (estimate_run graph signal n_rand n_point rs g spectrum sig_filt
             (mk_ndarray [nf] d) rand_filt ed psd); try assumption. lia.
  - unfold len. rewrite Hssh, Hpsh. now repeat split.
Qed.

Lemma lengths_equal_n_point_witness :
  exists spectrum psd rs',
    estimate_graph_psd Dense.pygsp Dense.path2 Dense.impulse 3 2 Dense.mixed
    = (Ok (spectrum, psd), rs')
    /\ len spectrum = Ok (Z.to_nat 2)
    /\ len psd = Ok (Z.to_nat 2)
    /\ length (data spectrum) = Z.to_nat 2
    /\ length (data psd) = Z.to_nat 2.
Proof.
  apply (lengths_equal_n_point Dense.pygsp Dense.path2 Dense.impulse 3 2 Dense.mixed
           Dense.bank2 (Dense.sig_filt Dense.impulse 2) (Dense.rand_filt 3 2 Dense.mixed));
    [lia | lia | by_evaluation | by_evaluation | by_evaluation
    | left; exists 2%nat; by_evaluation
    | left; exists 2%nat, 3%nat; by_evaluation].
Defined.

(** C5, as stated, fails: a valid call on a single vector with
    [n_point = 1] returns a spectrum of one element and a 0-d psd, and
    [len] of a 0-d array raises. *)
Lemma single_band_psd_has_no_len :
  @valid_input Dense.pygsp Dense.path2 Dense.impulse 2 1
  /\ option_map len (returned_spectrum (Dense.run Dense.impulse 2 1 Dense.mixed))
     = Some (Ok 1%nat)
  /\ option_map len (returned_psd (Dense.run Dense.impulse 2 1 Dense.mixed))
     = Some (Raise TypeError).
Proof.
  split; [|split; by_evaluation].
  repeat split; try lia; by_evaluation.
Qed.

Lemma div_nonneg (x y : fl) :
  nonneg x -> nonneg y -> is_zero y = false -> nonneg (div x y).
Proof.
  intros [a [-> Ha]] [b [-> Hb]] Hz. simpl.
  destruct (Qcle_lt_or_eq _ _ Hb) as [Hpos|E].
  - rewrite (compare_pos b Hpos). eexists; split; [reflexivity|].
    now apply Qc_div_nonneg.
  - subst b. discriminate.
Qed.

(** C7.  On every valid call with finite per-band filter answers on which
    no band is degenerate (every reference energy is non-zero), the call
    returns and every psd entry is non-negative. *)
Theorem psd_nonnegative (pg : PyGSP) (graph : Graph pg) (signal : ndarray fl)
    (n_rand n_point : Z) (rs : RandomState)
    (g : Filter pg) (sig_filt rand_filt : ndarray fl) :
  (1 <= n_point)%Z -> (1 <= n_rand)%Z ->
  Analysis pg graph signal n_rand n_point rs g sig_filt rand_filt ->
  finite_array sig_filt = true -> finite_array rand_filt = true ->
  (1 <= width signal)%nat ->
  (forall i, (i < Z.to_nat n_point)%nat ->
     is_zero (reference_energy rand_filt i) = false) ->
  exists spectrum psd rs',
    estimate_graph_psd pg graph signal n_rand n_point rs = (Ok (spectrum, psd), rs')
    /\ forall i, (i < Z.to_nat n_point)%nat -> leb zero (item psd i) = true.
Proof.
  intros Hn Hr HA Hfs Hfr Hw Hnz.
  destruct (analysis_run graph signal n_rand n_point rs g sig_filt rand_filt)
    as [spectrum [psd [Hrun [_ [_ Hd]]]]]; try lia; try assumption.
  eexists spectrum, psd, _. split; [exact Hrun|].
  intros i Hi. rewrite (item_map_seq psd _ _ i Hd Hi).
  destruct HA as [_ _ _ Hpb Hsh].
  destruct (div_nonneg (signal_energy sig_filt i) (reference_energy rand_filt i))
    as [q [-> Hq]].
  - now apply (signal_energy_nonneg (N graph) (Z.to_nat n_point) signal).
  - apply (reference_energy_nonneg (N graph) (Z.to_nat n_rand) (Z.to_nat n_point));
      try assumption. lia.
  - now apply Hnz.
  - now apply leb_Fin.
Qed.

Lemma psd_nonnegative_witness :
  exists spectrum psd rs',
    estimate_graph_psd Dense.pygsp Dense.path2 Dense.impulse 3 2 Dense.mixed
    = (Ok (spectrum, psd), rs')
    /\ forall i, (i < Z.to_nat 2)%nat -> leb zero (item psd i) = true.
Proof.
  apply (psd_nonnegative Dense.pygsp Dense.path2 Dense.impulse 3 2 Dense.mixed
           Dense.bank2 (Dense.sig_filt Dense.impulse 2) (Dense.rand_filt 3 2 Dense.mixed));
    [lia | lia | concrete_analysis | by_evaluation | by_evaluation
    | vm_compute; lia | ].
  intros [|[|i]] Hi; [by_evaluation | by_evaluation | simpl in Hi; lia].
Defined.








Lemma nd_eqb_eq (a b : ndarray fl) : nd_eqb a b = true -> a = b.
Proof.
  destruct a as [sa da], b as [sb db]. unfold nd_eqb. cbn [shape data].
  intros H. apply andb_true_iff in H as [H Hd].
  apply andb_true_iff in H as [Hs Hl].
  destruct (list_eq_dec Nat.eq_dec sa sb) as [->|]; [|discriminate].
  f_equal. apply Nat.eqb_eq in Hl. clear Hs.
  revert db Hl Hd. induction da as [|x da IH]; intros [|y db] Hl Hd;
    try discriminate; [reflexivity|].
  simpl in Hd. apply andb_true_iff in Hd as [Hx Hd].
  f_equal; [now apply eqb_eq | apply IH; [now inversion Hl | assumption]].
Qed.

Lemma answer_eqb (r : result (ndarray fl)) (b : ndarray fl) :
  match r with Ok a => nd_eqb a b | Raise _ => false end = true -> r = Ok b.
Proof.
  destruct r as [a|]; [|discriminate]. intros H. f_equal. now apply nd_eqb_eq.
Qed.

(** C10.  With the probe ensemble held fixed (same generator state), if the
    filter is homogeneous on the signal, filtering [c * signal] giving [c]
    times the finite per-band answer for [signal], then the call on
    [c * signal] returns a psd equal, entry by entry, to [c^2] times the psd
    of the call on [signal], and the same spectrum, which is
    [np.linspace(0, graph.lmax, n_point)]. *)
Theorem psd_scales_quadratically (pg : PyGSP) (graph : Graph pg) (signal : ndarray fl)
    (n_rand n_point : Z) (rs : RandomState)
    (g : Filter pg) (sig_filt rand_filt : ndarray fl) (c : Qc) :
  (1 <= n_point)%Z -> (1 <= n_rand)%Z ->
  Analysis pg graph signal n_rand n_point rs g sig_filt rand_filt ->
  finite_array sig_filt = true -> (1 <= width signal)%nat ->
  filter_chebyshev g (scale c signal) (2 * n_point) = Ok (scale c sig_filt) ->
  exists spectrum psd rs',
    estimate_graph_psd pg graph signal n_rand n_point rs = (Ok (spectrum, psd), rs')
    /\ estimate_graph_psd pg graph (scale c signal) n_rand n_point rs
       = (Ok (spectrum, scale (c * c) psd), rs')
    /\ linspace zero (Fin (lmax graph)) n_point = Ok spectrum.
Proof.
  intros Hn Hr HA Hfin Hw Hhom.
  assert (HA' : Analysis pg graph (scale c signal) n_rand n_point rs g
                  (scale c sig_filt) rand_filt).
  { destruct HA as [Hg Hf Hp Hpb Hsh]. constructor; assumption. }
  destruct (analysis_run graph signal n_rand n_point rs g sig_filt rand_filt)
    as [spectrum [psd [Hrun [Hs [Hsh Hd]]]]]; try lia; try assumption.
  destruct (analysis_run graph (scale c signal) n_rand n_point rs g
              (scale c sig_filt) rand_filt)
    as [spectrum' [psd' [Hrun' [Hs' [Hsh' Hd']]]]]; try lia; try assumption.
  eexists spectrum, psd, _. split; [exact Hrun|]. split; [|exact Hs].
  rewrite Hrun'. rewrite Hs in Hs'. inversion Hs'; subst spectrum'.
  do 3 f_equal. destruct psd as [sh dt], psd' as [sh' dt'].
  cbn [shape data] in *. unfold scale, amap. cbn [shape data].
  subst sh sh' dt dt'. f_equal. rewrite map_map.
  apply map_seq_ext. intros i Hi. destruct HA as [_ _ _ Hpb _].
  rewrite (signal_energy_scale c (N graph) (Z.to_nat n_point) signal sig_filt i)
    by assumption.
  destruct (signal_energy_nonneg (N graph) (Z.to_nat n_point) signal sig_filt i
              Hpb Hfin Hw Hi) as [a [-> _]].
  change (mul (Fin (c * c)) (Fin a)) with (Fin (c * c * a)).
  apply div_scale, Qc_square_nonneg.
Qed.

Lemma psd_scales_quadratically_witness :
  exists spectrum psd rs',
    estimate_graph_psd Dense.pygsp Dense.path2 Dense.impulse 3 2 Dense.mixed
    = (Ok (spectrum, psd), rs')
    /\ estimate_graph_psd Dense.pygsp Dense.path2 (scale (Q2Qc 3) Dense.impulse) 3 2
         Dense.mixed
       = (Ok (spectrum, scale (Q2Qc 3 * Q2Qc 3) psd), rs')
    /\ linspace zero (Fin (@lmax Dense.pygsp Dense.path2)) 2 = Ok spectrum.
Proof.
  apply (psd_scales_quadratically Dense.pygsp Dense.path2 Dense.impulse 3 2
           Dense.mixed Dense.bank2 (Dense.sig_filt Dense.impulse 2)
           (Dense.rand_filt 3 2 Dense.mixed) (Q2Qc 3));
    [lia | lia | concrete_analysis | by_evaluation | vm_compute; lia | ].
  apply answer_eqb. by_evaluation.
Defined.

Lemma probes_depend_on_draws (n : nat) (n_rand : Z) (rs1 rs2 : RandomState) :
  draws rs1 (n * Z.to_nat n_rand) = draws rs2 (n * Z.to_nat n_rand) ->
  probes n n_rand rs1 = probes n n_rand rs2.
Proof.
  intros H. unfold probes. rewrite size_of_2. now rewrite H.
Qed.

(** C6 (as amended).  The estimator is deterministic given the state of
    numpy's global generator: two calls with identical arguments, each made
    right after [np.random.seed(s)] with the same [s], return the same
    result and leave the same state, whatever the generator did before; and
    the result depends on the generator only through the [N * n_rand]
    outcomes the call draws.  The randomness is ambient state that the
    caller seeds, not a parameter. *)
Theorem seeded_calls_agree (pg : PyGSP) (graph : Graph pg) (signal : ndarray fl)
    (n_rand n_point : Z) :
  (forall (gen : Z -> nat -> bool) (s : Z) (rs1 rs2 : RandomState),
     estimate_graph_psd pg graph signal n_rand n_point (seed gen s rs1)
     = estimate_graph_psd pg graph signal n_rand n_point (seed gen s rs2))
  /\ (forall rs1 rs2 : RandomState,
        draws rs1 (N graph * Z.to_nat n_rand) = draws rs2 (N graph * Z.to_nat n_rand) ->
        fst (estimate_graph_psd pg graph signal n_rand n_point rs1)
        = fst (estimate_graph_psd pg graph signal n_rand n_point rs2)).
Proof.
  split; [reflexivity|].
  intros rs1 rs2 Hd. apply probes_depend_on_draws in Hd.
  unfold estimate_graph_psd, bind, lift.
  destruct (Itersine graph n_point 2) as [g|]; [|reflexivity].
  destruct (linspace zero (Fin (lmax graph)) n_point) as [sp|]; [|reflexivity].
  destruct (filter_chebyshev g signal (2 * n_point)) as [sf|]; [|reflexivity].
  destruct (sig_dist sf) as [sd|]; [|reflexivity].
  destruct (Z_lt_le_dec n_rand 0) as [Hneg|Hr].
  - now rewrite !(rand_sig_negative graph n_rand _ Hneg).
  - rewrite !(rand_sig_run graph n_rand _ Hr), Hd.
    destruct (filter_chebyshev g _ (2 * n_point)) as [rf|]; [|reflexivity].
    destruct (eig_dist rf) as [ed|]; [|reflexivity].
    destruct (divide sd ed) as [q|]; reflexivity.
Qed.

Lemma seeded_calls_agree_witness :
  fst (estimate_graph_psd Dense.pygsp Dense.path2 Dense.impulse 3 2 Dense.mixed)
  = fst (estimate_graph_psd Dense.pygsp Dense.path2 Dense.impulse 3 2
           (Dense.from_list [true; false; true; true; false; false; true])).
Proof.
  apply (proj2 (seeded_calls_agree Dense.pygsp Dense.path2 Dense.impulse 3 2)).
  reflexivity.
Defined.

(** C6, as stated, fails: the generator is not a parameter.  Two calls in a
    row with identical graph, signal, [n_rand] and [n_point] return
    different psd arrays, because the first call advanced the ambient
    generator. *)
Lemma unseeded_calls_differ :
  let rs := Dense.from_list [true; false; true; true; false; false;
                             true; true; true; true; true; true] in
  let first := Dense.run Dense.impulse 3 2 rs in
  let second := Dense.run Dense.impulse 3 2 (snd first) in
  returned_psd first <> returned_psd second.
Proof.
  intros rs first second H. vm_compute in H. discriminate H.
Qed.

Lemma draws_length (rs : RandomState) (n : nat) : length (draws rs n) = n.
Proof. unfold draws. now rewrite length_map, length_seq. Qed.

Lemma sign_injective (b1 b2 : bool) :
  (bernoulli b1 * 2 - 1 = bernoulli b2 * 2 - 1)%Z -> b1 = b2.
Proof. destruct b1, b2; simpl; intros H; try reflexivity; discriminate. Qed.

Lemma probe_of_draws_injective (n k : nat) (bits1 bits2 : list bool) :
  probe_of_draws n k bits1 = probe_of_draws n k bits2 -> bits1 = bits2.
Proof.
  unfold probe_of_draws. intros H. inversion H as [Hd]. clear H.
  revert bits2 Hd. induction bits1 as [|b bits1 IH]; intros [|b' bits2] Hd;
    try discriminate; [reflexivity|].
  simpl in Hd. inversion Hd as [[Hb Ht]].
  f_equal; [now apply sign_injective | now apply IH].
Qed.

Lemma probe_of_draws_surjective (n k : nat) (target : list Z) :
  Forall (fun z => z = (-1)%Z \/ z = 1%Z) target ->
  exists bits, length bits = length target
               /\ data (probe_of_draws n k bits) = target.
Proof.
  intros H. exists (map (fun z => (z =? 1)%Z) target). split.
  - apply length_map.
  - unfold probe_of_draws. cbn [data]. rewrite map_map.
    induction H as [|z t [-> | ->] Ht IH]; simpl; [reflexivity | |];
      now rewrite IH.
Qed.

(** C9.  Every call draws its own probe ensemble: an array of shape
    [(graph.N, n_rand)] whose element [(i, j)] is [+1] or [-1] according to
    one Bernoulli outcome of its own, the outcome [i * n_rand + j] after
    the generator's position; outcome sequences and ensembles correspond one
    to one, so fair independent outcomes give independent entries uniform on
    [{-1, +1}].  The generator is left past the outcomes used, so the next
    call draws new ones.  In a call that returns, the ensemble is what the
    second filter call receives, and the result consists of the spectrum and
    the psd only. *)
Theorem probe_ensemble_is_fresh_signs (pg : PyGSP) (graph : Graph pg)
    (n_rand : Z) (rs : RandomState) :
  (0 <= n_rand)%Z ->
  let e := probes (N graph) n_rand rs in
  let m := (N graph * Z.to_nat n_rand)%nat in
  rand_sig graph n_rand rs = (Ok e, advance rs m)
  /\ shape e = [N graph; Z.to_nat n_rand]
  /\ length (data e) = m
  /\ (forall i j, (i < N graph)%nat -> (j < Z.to_nat n_rand)%nat ->
        nth (i * Z.to_nat n_rand + j) (data e) 0%Z
        = if stream rs (cursor rs + (i * Z.to_nat n_rand + j)) then 1%Z else (-1)%Z)
  /\ Forall (fun z => z = (-1)%Z \/ z = 1%Z) (data e)
  /\ (forall bits1 bits2,
        probe_of_draws (N graph) (Z.to_nat n_rand) bits1
        = probe_of_draws (N graph) (Z.to_nat n_rand) bits2 -> bits1 = bits2)
  /\ (forall target, length target = m ->
        Forall (fun z => z = (-1)%Z \/ z = 1%Z) target ->
        exists bits, length bits = m
          /\ data (probe_of_draws (N graph) (Z.to_nat n_rand) bits) = target)
  /\ (forall signal n_point spectrum psd rs',
        estimate_graph_psd pg graph signal n_rand n_point rs
        = (Ok (spectrum, psd), rs') ->
        rs' = advance rs m
        /\ exists g rand_filt sd ed,
             Itersine graph n_point 2 = Ok g
             /\ filter_chebyshev g (as_float e) (2 * n_point) = Ok rand_filt
             /\ eig_dist rand_filt = Ok ed
             /\ divide sd ed = Ok psd).
Proof.
  intros Hr e m.
  assert (Hm : size_of [N graph; Z.to_nat n_rand] = m) by apply size_of_2.
  split; [|split; [|split; [|split; [|split; [|split; [|split]]]]]].
  - rewrite <- Hm. now apply rand_sig_run.
  - reflexivity.
  - unfold e, probes, probe_of_draws. cbn [data].
    now rewrite length_map, draws_length.
  - intros i j Hi Hj. unfold e, probes, probe_of_draws. cbn [data].
    rewrite Hm. unfold draws. rewrite map_map.
    assert (Hp : (i * Z.to_nat n_rand + j < m)%nat).
    { unfold m. assert (H : (S i * Z.to_nat n_rand <= N graph * Z.to_nat n_rand)%nat)
        by (apply Nat.mul_le_mono_r; lia). simpl in H. lia. }
    rewrite (nth_map_seq _ m _ 0%Z Hp). now destruct (stream rs _).
  - unfold e, probes, probe_of_draws. cbn [data].
    apply Forall_forall. intros z Hz. apply in_map_iff in Hz as [b [<- _]].
    destruct b; [right | left]; reflexivity.
  - apply probe_of_draws_injective.
  - intros target Hl Ht.
    destruct (probe_of_draws_surjective (N graph) (Z.to_nat n_rand) target Ht)
      as [bits [Hb Hd]].
    exists bits. split; [now rewrite Hb | exact Hd].
  - intros signal n_point spectrum psd rs' Hrun.
    destruct (estimate_inv graph signal n_rand n_point rs spectrum psd rs' Hrun)
      as [g [sf [sd [rf [ed [_ [Hg [_ [_ [_ [Hp [Hed [Hd Hrs]]]]]]]]]]]]].
    split; [now rewrite <- Hm|]. now exists g, rf, sd, ed.
Qed.

Lemma probe_ensemble_is_fresh_signs_witness :
  Forall (fun z => z = (-1)%Z \/ z = 1%Z)
    (data (probes (@N Dense.pygsp Dense.path2) 2 Dense.mixed)).
Proof.
  refine (proj1 (proj2 (proj2 (proj2 (proj2
            (probe_ensemble_is_fresh_signs Dense.pygsp Dense.path2 2 Dense.mixed _)))))).
  lia.
Defined.

(** C1 (as amended).  The estimator validates nothing itself and has no
    [InvalidArgument] error.  A call fails when [n_point < 0] or
    [n_rand < 0] (numpy rejects a negative size), when the Itersine
    constructor fails, and when the filter call on the signal fails, which
    is where PyGSP rejects a node dimension different from [graph.N].  More
    precisely a call returns exactly when every step answers; [n_point = 0],
    [n_rand = 0] and [graph.lmax] are not checked by the estimator. *)
Theorem failures_are_propagated (pg : PyGSP) (graph : Graph pg) (signal : ndarray fl)
    (n_rand n_point : Z) (rs : RandomState) :
  ((n_point < 0)%Z \/ (n_rand < 0)%Z
   \/ raises (Itersine graph n_point 2) = true
   \/ (exists g, Itersine graph n_point 2 = Ok g
                 /\ raises (filter_chebyshev g signal (2 * n_point)) = true) ->
   raises (fst (estimate_graph_psd pg graph signal n_rand n_point rs)) = true)
  /\ (raises (fst (estimate_graph_psd pg graph signal n_rand n_point rs)) = false
      <-> exists g spectrum sig_filt sd rand_filt ed psd,
            (0 <= n_rand)%Z
            /\ Itersine graph n_point 2 = Ok g
            /\ linspace zero (Fin (lmax graph)) n_point = Ok spectrum
            /\ filter_chebyshev g signal (2 * n_point) = Ok sig_filt
            /\ sig_dist sig_filt = Ok sd
            /\ filter_chebyshev g (as_float (probes (N graph) n_rand rs)) (2 * n_point)
               = Ok rand_filt
            /\ eig_dist rand_filt = Ok ed
            /\ divide sd ed = Ok psd).
Proof.
  assert (Hiff :
    raises (fst (estimate_graph_psd pg graph signal n_rand n_point rs)) = false
    <-> exists g spectrum sig_filt sd rand_filt ed psd,
          (0 <= n_rand)%Z
          /\ Itersine graph n_point 2 = Ok g
          /\ linspace zero (Fin (lmax graph)) n_point = Ok spectrum
          /\ filter_chebyshev g signal (2 * n_point) = Ok sig_filt
          /\ sig_dist sig_filt = Ok sd
          /\ filter_chebyshev g (as_float (probes (N graph) n_rand rs)) (2 * n_point)
             = Ok rand_filt
          /\ eig_dist rand_filt = Ok ed
          /\ divide sd ed = Ok psd).
  { split.
    - destruct (estimate_graph_psd pg graph signal n_rand n_point rs)
        as [[[sp psd]|e] rs'] eqn:Hrun; [intros _ | discriminate].
      destruct (estimate_inv graph signal n_rand n_point rs sp psd rs' Hrun)
        as [g [sf [sd [rf [ed [Hr [Hg [Hs [Hf [Hsd [Hp [Hed [Hd _]]]]]]]]]]]]].
      now exists g, sp, sf, sd, rf, ed, psd.
    - intros [g [sp [sf [sd [rf [ed [psd [Hr [Hg [Hs [Hf [Hsd [Hp [Hed Hd]]]]]]]]]]]]]].
      now rewrite (estimate_run graph signal n_rand n_point rs g sp sf sd rf ed psd). }
  split; [|exact Hiff].
  intros Hfail.
  destruct (raises (fst (estimate_graph_psd pg graph signal n_rand n_point rs)))
    eqn:E; [reflexivity|]. exfalso.
  destruct (proj1 Hiff eq_refl)
    as [g [sp [sf [sd [rf [ed [psd [Hr [Hg [Hs [Hf _]]]]]]]]]]].
  destruct Hfail as [H|[H|[H|[g' [Hg' H]]]]].
  - apply linspace_shape in Hs as [Hn _]. lia.
  - lia.
  - rewrite Hg in H. discriminate.
  - rewrite Hg in Hg'. inversion Hg'; subst g'. rewrite Hf in H. discriminate.
Qed.

Lemma failures_are_propagated_witness :
  raises (fst (estimate_graph_psd Dense.pygsp Dense.path2
                 (Dense.vector [1; 0; 2]%Z) 3 2 Dense.all_heads)) = true.
Proof.
  apply (proj1 (failures_are_propagated Dense.pygsp Dense.path2
                  (Dense.vector [1; 0; 2]%Z) 3 2 Dense.all_heads)).
  right; right; right. exists Dense.bank2. split; by_evaluation.
Defined.

(** C1, as stated, fails: a call with [n_rand = 0] is not rejected.  numpy
    draws an empty probe ensemble, the filter answers it with an empty
    array, and the call returns (a psd of [nan]s). *)
Lemma zero_probes_are_accepted :
  @invalid_argument Dense.pygsp Dense.path2 Dense.impulse 0 2
  /\ raises (fst (estimate_graph_psd Dense.pygsp Dense.path2 Dense.impulse 0 2
                    Dense.mixed)) = false
  /\ option_map (fun psd => (shape psd, data psd))
       (returned_psd (Dense.run Dense.impulse 0 2 Dense.mixed))
     = Some ([2%nat], [NaN; NaN]).
Proof.
  split; [|split; by_evaluation].
  right; left. lia.
Qed.

(* ================================================================== *)
(** ** Further properties of the estimator *)

Lemma advance_0 (rs : RandomState) : advance rs 0 = rs.
Proof. destruct rs as [s c]. unfold advance. cbn. now rewrite Nat.add_0_r. Qed.

(** X1.  The generator after a call.  Once the bank is built, the spectrum
    computed and the signal filtered and reduced, the call draws its
    [N * n_rand] outcomes, and the generator stays advanced by that much
    even if a later step raises.  A call that fails before the draw, or
    whose [n_rand] is negative, raises and leaves the generator as it was. *)
Theorem generator_after_call (pg : PyGSP) (graph : Graph pg) (signal : ndarray fl)
    (n_rand n_point : Z) (rs : RandomState) :
  (forall g sp sf sd,
     (0 <= n_rand)%Z ->
     Itersine graph n_point 2 = Ok g ->
     linspace zero (Fin (lmax graph)) n_point = Ok sp ->
     filter_chebyshev g signal (2 * n_point) = Ok sf ->
     sig_dist sf = Ok sd ->
     snd (estimate_graph_psd pg graph signal n_rand n_point rs)
     = advance rs (N graph * Z.to_nat n_rand))
  /\ ((n_rand < 0)%Z
      \/ raises (Itersine graph n_point 2) = true
      \/ raises (linspace zero (Fin (lmax graph)) n_point) = true
      \/ (exists g, Itersine graph n_point 2 = Ok g
            /\ (raises (filter_chebyshev g signal (2 * n_point)) = true
                \/ exists sf, filter_chebyshev g signal (2 * n_point) = Ok sf
                              /\ raises (sig_dist sf) = true)) ->
      snd (estimate_graph_psd pg graph signal n_rand n_point rs) = rs
      /\ raises (fst (estimate_graph_psd pg graph signal n_rand n_point rs)) = true).
Proof.
  split.
  - intros g sp sf sd Hr Hg Hs Hf Hsd.
    unfold estimate_graph_psd, bind, lift.
    rewrite Hg, Hs, Hf, Hsd, (rand_sig_run graph n_rand rs Hr), size_of_2.
    destruct (filter_chebyshev g (as_float (probes (N graph) n_rand rs)) (2 * n_point))
      as [rf|]; [|reflexivity].
    destruct (eig_dist rf) as [ed|]; [|reflexivity].
    destruct (divide sd ed); reflexivity.
  - intros H. unfold estimate_graph_psd, bind, lift.
    destruct (Itersine graph n_point 2) as [g|] eqn:Hg; [|now split].
    destruct (linspace zero (Fin (lmax graph)) n_point) as [sp|] eqn:Hs; [|now split].
    destruct (filter_chebyshev g signal (2 * n_point)) as [sf|] eqn:Hf; [|now split].
    destruct (sig_dist sf) as [sd|] eqn:Hsd; [|now split].
    destruct H as [H|[H|[H|[g' [Hg' [H|[sf' [Hf' H]]]]]]]]; try discriminate.
    + now rewrite (rand_sig_negative graph n_rand rs H).
    + inversion Hg'; subst g'. rewrite Hf in H. discriminate.
    + inversion Hg'; subst g'. rewrite Hf in Hf'. inversion Hf'; subst sf'.
      rewrite Hsd in H. discriminate.
Qed.

Lemma generator_after_call_witness :
  snd (estimate_graph_psd Dense.pygsp Dense.path2 Dense.impulse (-1) 2 Dense.mixed)
  = Dense.mixed
  /\ raises (fst (estimate_graph_psd Dense.pygsp Dense.path2 Dense.impulse (-1) 2
                    Dense.mixed)) = true.
Proof.
  apply (proj2 (generator_after_call Dense.pygsp Dense.path2 Dense.impulse (-1) 2
                  Dense.mixed)).
  left. lia.
Defined.

Lemma sig_dist_line (n : nat) (d : list fl) :
  sig_dist (mk_ndarray [n] d)
  = Ok (mk_ndarray [] [node_sum d n (fun v => v)]).
Proof.
  unfold sig_dist. rewrite sum_axis0_square. cbn [ndim shape length Nat.ltb Nat.leb].
  change (size_of []) with 1%nat. cbn [seq map]. do 4 f_equal. unfold node_sum.
  f_equal. apply map_ext. intros v. do 2 f_equal. lia.
Qed.

(** X2.  A probe answer with two axes.  The mean over axis 0 of the probe
    energies is taken whatever the number of axes, so on a probe answer of
    shape [(n', nb)] it runs over the second axis: [eig_dist] is one number,
    the mean of the [nb] column energies, and every band of the psd of a
    vector signal is its signal energy divided by that same number. *)
Theorem matrix_probe_answer_gives_scalar_reference (pg : PyGSP) (graph : Graph pg)
    (signal : ndarray fl) (n_rand n_point : Z) (rs : RandomState)
    (g : Filter pg) (sf rf : ndarray fl) (n nf n' nb : nat) :
  (0 <= n_point)%Z -> (0 <= n_rand)%Z ->
  Itersine graph n_point 2 = Ok g ->
  filter_chebyshev g signal (2 * n_point) = Ok sf ->
  filter_chebyshev g (as_float (probes (N graph) n_rand rs)) (2 * n_point) = Ok rf ->
  shape sf = [n; nf] -> shape rf = [n'; nb] ->
  exists spectrum psd rs',
    estimate_graph_psd pg graph signal n_rand n_point rs = (Ok (spectrum, psd), rs')
    /\ shape psd = [nf]
    /\ forall i, (i < nf)%nat ->
         item psd i
         = div (vec_energy n nf (data sf) i)
               (div (Float.sum (map (vec_energy n' nb (data rf)) (seq 0 nb)))
                    (of_nat nb)).
Proof.
  intros Hn Hr Hg Hf Hp Hsf Hrf.
  destruct (linspace_ok zero (Fin (lmax graph)) n_point Hn) as [y [Hs _]].
  destruct sf as [ssh sd], rf as [rsh rd]. cbn [shape data] in *. subst ssh rsh.
  eexists _, _, _. split; [|split].
  - eapply estimate_run; eauto.
    + apply sig_dist_vec.
    + apply eig_dist_matrix.
    + apply divide_vec_scalar.
  - reflexivity.
  - intros i Hi. unfold item. cbn [data].
    rewrite (nth_map_seq _ nf i NaN Hi). now rewrite nth_map_seq.
Qed.

Lemma matrix_probe_answer_gives_scalar_reference_witness :
  exists spectrum psd rs',
    estimate_graph_psd Dense.pygsp Dense.path2 Dense.impulse 1 2 Dense.mixed
    = (Ok (spectrum, psd), rs')
    /\ shape psd = [2%nat]
    /\ forall i, (i < 2)%nat ->
         item psd i
         = div (vec_energy 2 2
                  (data (Examples.answer_of Dense.pygsp Dense.bank2
                           Dense.impulse 4)) i)
               (div (Float.sum
                       (map (vec_energy 2 2
                               (data (Examples.answer_of Dense.pygsp Dense.bank2
                                        (as_float (probes 2 1 Dense.mixed)) 4)))
                            (seq 0 2)))
                    (of_nat 2)).
Proof.
  apply (matrix_probe_answer_gives_scalar_reference Dense.pygsp Dense.path2
           Dense.impulse 1 2 Dense.mixed Dense.bank2);
    try lia; by_evaluation.
Defined.

(** X3.  A one-axis signal answer with a two-axis probe answer (what the
    filter, which drops axes of length one, returns for a single band): the
    sum over the nodes is already a single number, the guard
    [sig_dist.ndim > 1] skips the mean, and the psd is a 0-d array holding
    the total signal energy divided by the mean probe energy. *)
Theorem line_answer_gives_scalar_psd (pg : PyGSP) (graph : Graph pg)
    (signal : ndarray fl) (n_rand n_point : Z) (rs : RandomState)
    (g : Filter pg) (sf rf : ndarray fl) (n n' nb : nat) :
  (0 <= n_point)%Z -> (0 <= n_rand)%Z ->
  Itersine graph n_point 2 = Ok g ->
  filter_chebyshev g signal (2 * n_point) = Ok sf ->
  filter_chebyshev g (as_float (probes (N graph) n_rand rs)) (2 * n_point) = Ok rf ->
  shape sf = [n] -> shape rf = [n'; nb] ->
  exists spectrum psd rs',
    estimate_graph_psd pg graph signal n_rand n_point rs = (Ok (spectrum, psd), rs')
    /\ len psd = Raise TypeError
    /\ data psd
       = [div (node_sum (data sf) n (fun v => v))
              (div (Float.sum (map (vec_energy n' nb (data rf)) (seq 0 nb)))
                   (of_nat nb))].
Proof.
  intros Hn Hr Hg Hf Hp Hsf Hrf.
  destruct (linspace_ok zero (Fin (lmax graph)) n_point Hn) as [y [Hs _]].
  destruct sf as [ssh sd], rf as [rsh rd]. cbn [shape data] in *. subst ssh rsh.
  eexists _, _, _. split; [|split].
  - eapply estimate_run; eauto.
    + apply sig_dist_line.
    + apply eig_dist_matrix.
    + apply divide_scalar_scalar.
  - reflexivity.
  - reflexivity.
Qed.

Lemma line_answer_gives_scalar_psd_witness :
  exists spectrum psd rs',
    estimate_graph_psd Dense.pygsp Dense.path2 Dense.impulse 2 1 Dense.mixed
    = (Ok (spectrum, psd), rs')
    /\ len psd = Raise TypeError
    /\ data psd
       = [div (node_sum
                 (data (Examples.answer_of Dense.pygsp
                          Dense.bank1 Dense.impulse 2))
                 2 (fun v => v))
              (div (Float.sum
                      (map (vec_energy 2 2
                              (data (Examples.answer_of Dense.pygsp
                                       Dense.bank1
                                       (as_float (probes 2 2 Dense.mixed)) 2)))
                           (seq 0 2)))
                   (of_nat 2))].
Proof.
  apply (line_answer_gives_scalar_psd Dense.pygsp Dense.path2
           Dense.impulse 2 1 Dense.mixed Dense.bank1);
    try lia; by_evaluation.
Defined.

(** X4.  Answers with too few axes.  A 0-d signal answer makes
    [np.sum(axis=0)] raise [AxisError] before anything is drawn.  A probe
    answer with one axis or none makes the unguarded [np.mean(axis=0)] (or
    the sum before it) raise [AxisError] after the draw, although a signal
    answer with one axis is accepted. *)
Theorem too_few_axes_raise (pg : PyGSP) (graph : Graph pg)
    (signal : ndarray fl) (n_rand n_point : Z) (rs : RandomState)
    (g : Filter pg) (sf rf : ndarray fl) :
  (0 <= n_point)%Z -> (0 <= n_rand)%Z ->
  Itersine graph n_point 2 = Ok g ->
  filter_chebyshev g signal (2 * n_point) = Ok sf ->
  filter_chebyshev g (as_float (probes (N graph) n_rand rs)) (2 * n_point) = Ok rf ->
  (ndim sf = 0%nat ->
   estimate_graph_psd pg graph signal n_rand n_point rs = (Raise AxisError, rs))
  /\ (ndim sf = 1%nat -> (ndim rf <= 1)%nat ->
      estimate_graph_psd pg graph signal n_rand n_point rs
      = (Raise AxisError, advance rs (N graph * Z.to_nat n_rand))).
Proof.
  intros Hn Hr Hg Hf Hp.
  destruct (linspace_ok zero (Fin (lmax graph)) n_point Hn) as [y [Hs _]].
  destruct sf as [ssh sd], rf as [rsh rd]. unfold ndim. cbn [shape].
  split.
  - intros H0. destruct ssh; [|discriminate].
    unfold estimate_graph_psd, bind, lift. rewrite Hg, Hs, Hf. reflexivity.
  - intros H1 Hrf. destruct ssh as [|n [|? ?]]; try discriminate.
    unfold estimate_graph_psd, bind, lift.
    rewrite Hg, Hs, Hf, sig_dist_line, (rand_sig_run graph n_rand rs Hr), Hp, size_of_2.
    destruct rsh as [|n' [|? ?]]; [reflexivity | reflexivity | simpl in Hrf; lia].
Qed.

Lemma too_few_axes_raise_witness :
  estimate_graph_psd Dense.pygsp Dense.path2 Dense.impulse 1 1 Dense.mixed
  = (Raise AxisError, advance Dense.mixed (@N Dense.pygsp Dense.path2 * Z.to_nat 1)).
Proof.
  refine (proj2 (too_few_axes_raise Dense.pygsp Dense.path2 Dense.impulse 1 1
                   Dense.mixed Dense.bank1
                   (Examples.answer_of Dense.pygsp Dense.bank1
                      Dense.impulse 2)
                   (Examples.answer_of Dense.pygsp Dense.bank1
                      (as_float (probes 2 1 Dense.mixed)) 2)
                   _ _ _ _ _) _ _);
    try lia; by_evaluation.
Defined.

Lemma div_NaN_r (x : fl) : div x NaN = NaN.
Proof. now destruct x. Qed.

(** X5.  An empty probe ensemble.  With [n_rand = 0] and per-band filter
    answers nothing is drawn, nothing raises, and every psd entry is [nan]:
    the mean of the probe energies over an empty axis is [0 / 0]. *)
Theorem empty_probe_ensemble_gives_nan (pg : PyGSP) (graph : Graph pg)
    (signal : ndarray fl) (n_point : Z) (rs : RandomState)
    (g : Filter pg) (sig_filt rand_filt : ndarray fl) :
  (1 <= n_point)%Z ->
  Analysis pg graph signal 0 n_point rs g sig_filt rand_filt ->
  exists spectrum psd,
    estimate_graph_psd pg graph signal 0 n_point rs = (Ok (spectrum, psd), rs)
    /\ forall i, (i < Z.to_nat n_point)%nat -> item psd i = NaN.
Proof.
  intros Hn HA.
  destruct (analysis_run graph signal 0 n_point rs g sig_filt rand_filt)
    as [spectrum [psd [Hrun [_ [_ Hd]]]]]; try lia; try assumption.
  exists spectrum, psd. split.
  - rewrite Hrun. f_equal. rewrite size_of_2. change (Z.to_nat 0) with 0%nat.
    rewrite Nat.mul_0_r. apply advance_0.
  - intros i Hi. rewrite (item_map_seq psd _ _ i Hd Hi).
    destruct HA as [_ _ _ _ Hsh]. unfold reference_energy. rewrite Hsh.
    change (Z.to_nat 0) with 0%nat. unfold batch_energy. cbn [seq map].
    replace (div (Float.sum []) (of_nat 0)) with NaN by reflexivity.
    apply div_NaN_r.
Qed.

Lemma empty_probe_ensemble_gives_nan_witness :
  exists spectrum psd,
    estimate_graph_psd Dense.pygsp Dense.path2 Dense.impulse 0 2 Dense.mixed
    = (Ok (spectrum, psd), Dense.mixed)
    /\ forall i, (i < Z.to_nat 2)%nat -> item psd i = NaN.
Proof.
  apply (empty_probe_ensemble_gives_nan Dense.pygsp Dense.path2 Dense.impulse 2
           Dense.mixed Dense.bank2 (Dense.sig_filt Dense.impulse 2)
           (Dense.rand_filt 0 2 Dense.mixed)); [lia | concrete_analysis].
Defined.

(** X7.  The spectrum depends on nothing but [graph.lmax] and [n_point]:
    two calls that return, on the same graph with the same [n_point], return
    the same spectrum whatever their signals, their [n_rand] and the states
    of the generator. *)
Theorem spectrum_ignores_signal_and_probes (pg : PyGSP) (graph : Graph pg)
    (n_point : Z) (signal1 signal2 : ndarray fl) (n_rand1 n_rand2 : Z)
    (rs1 rs2 rs1' rs2' : RandomState) (spectrum1 psd1 spectrum2 psd2 : ndarray fl) :
  estimate_graph_psd pg graph signal1 n_rand1 n_point rs1
    = (Ok (spectrum1, psd1), rs1') ->
  estimate_graph_psd pg graph signal2 n_rand2 n_point rs2
    = (Ok (spectrum2, psd2), rs2') ->
  spectrum1 = spectrum2.
Proof.
  intros H1 H2.
  destruct (estimate_inv graph signal1 n_rand1 n_point rs1 _ _ _ H1)
    as [g1 [sf1 [sd1 [rf1 [ed1 [_ [_ [Hs1 _]]]]]]]].
  destruct (estimate_inv graph signal2 n_rand2 n_point rs2 _ _ _ H2)
    as [g2 [sf2 [sd2 [rf2 [ed2 [_ [_ [Hs2 _]]]]]]]].
  rewrite Hs1 in Hs2. now inversion Hs2.
Qed.

Lemma spectrum_ignores_signal_and_probes_witness :
  spectrum_of (Dense.run Dense.impulse 3 2 Dense.mixed)
  = spectrum_of (Dense.run (Dense.batch [[1; 0; 1]; [0; 3; 1]]%Z) 4 2 Dense.all_heads).
Proof.
  apply (spectrum_ignores_signal_and_probes Dense.pygsp Dense.path2 2
           Dense.impulse (Dense.batch [[1; 0; 1]; [0; 3; 1]]%Z) 3 4
           Dense.mixed Dense.all_heads
           (snd (Dense.run Dense.impulse 3 2 Dense.mixed))
           (snd (Dense.run (Dense.batch [[1; 0; 1]; [0; 3; 1]]%Z) 4 2 Dense.all_heads))
           _ (psd_of (Dense.run Dense.impulse 3 2 Dense.mixed))
           _ (psd_of (Dense.run (Dense.batch [[1; 0; 1]; [0; 3; 1]]%Z) 4 2
                        Dense.all_heads)));
    by_evaluation.
Defined.

Lemma Qc_of_nat_S (i : nat) : Qc_of_nat (S i) = Qc_of_nat i + 1.
Proof.
  apply Qc_is_canon. unfold Qc_of_nat. rewrite this_plus, !this_of_Z.
  unfold Qeq. simpl. lia.
Qed.

(** X8.  The points of the spectrum.  In a call that returns, with
    [lmax >= 0], every point of the spectrum lies between 0 and [lmax]; with
    two points or more, consecutive points are exactly
    [lmax / (n_point - 1)] apart (exact arithmetic). *)
Theorem spectrum_points_are_evenly_spaced (pg : PyGSP) (graph : Graph pg)
    (signal : ndarray fl) (n_rand n_point : Z) (rs rs' : RandomState)
    (spectrum psd : ndarray fl) :
  estimate_graph_psd pg graph signal n_rand n_point rs = (Ok (spectrum, psd), rs') ->
  0 <= lmax graph ->
  (forall i, (i < Z.to_nat n_point)%nat ->
     leb zero (item spectrum i) = true
     /\ leb (item spectrum i) (Fin (lmax graph)) = true)
  /\ (forall i, (S i < Z.to_nat n_point)%nat ->
        sub (item spectrum (S i)) (item spectrum i)
        = Fin (lmax graph / Qc_of_Z (n_point - 1))).
Proof.
  intros Hrun Hq.
  destruct (estimate_inv graph signal n_rand n_point rs spectrum psd rs' Hrun)
    as [g [sf [sd [rf [ed [_ [_ [Hs _]]]]]]]].
  split.
  - intros i Hi. destruct (Z_lt_le_dec n_point 2) as [Hsmall|Hbig].
    + assert (n_point = 1%Z) as E by lia. subst n_point.
      rewrite linspace_single in Hs. inversion Hs; subst spectrum.
      replace i with 0%nat by lia. split; [reflexivity|now apply leb_Fin].
    + assert (Hpos : 0 < Qc_of_Z (n_point - 1)) by (apply Qc_of_Z_pos; lia).
      rewrite (linspace_item _ _ _ i Hbig Hi Hs). split; apply leb_Fin.
      * replace 0 with (Qc_of_nat 0 * lmax graph / Qc_of_Z (n_point - 1)).
        -- apply Qc_grid_le; [lia | assumption | assumption].
        -- rewrite Qc_of_nat_0. field. now apply Qclt_not_eq in Hpos; auto.
      * replace (lmax graph) with
          (Qc_of_nat (Z.to_nat n_point - 1) * lmax graph / Qc_of_Z (n_point - 1)) at 2.
        -- apply Qc_grid_le; [lia | assumption | assumption].
        -- replace (Qc_of_nat (Z.to_nat n_point - 1)) with (Qc_of_Z (n_point - 1))
             by (unfold Qc_of_nat; f_equal; lia).
           field. intros E. rewrite E in Hpos. exact (Qclt_not_eq _ _ Hpos eq_refl).
  - intros i Hi. assert (Hbig : (2 <= n_point)%Z) by lia.
    assert (Hne : Qc_of_Z (n_point - 1) <> 0) by (apply Qc_of_Z_neq0; lia).
    rewrite (linspace_item _ _ _ (S i) Hbig Hi Hs).
    rewrite (linspace_item _ _ _ i Hbig) by (try lia; exact Hs).
    unfold sub, neg. cbn [add]. f_equal. rewrite Qc_of_nat_S. now field.
Qed.

Lemma spectrum_points_are_evenly_spaced_witness :
  sub (item (spectrum_of (Dense.run Dense.impulse 3 2 Dense.mixed)) 1)
      (item (spectrum_of (Dense.run Dense.impulse 3 2 Dense.mixed)) 0)
  = Fin (@lmax Dense.pygsp Dense.path2 / Qc_of_Z (2 - 1)).
Proof.
  refine (proj2
            (spectrum_points_are_evenly_spaced Dense.pygsp Dense.path2
               Dense.impulse 3 2 Dense.mixed
               (snd (Dense.run Dense.impulse 3 2 Dense.mixed))
               (spectrum_of (Dense.run Dense.impulse 3 2 Dense.mixed))
               (psd_of (Dense.run Dense.impulse 3 2 Dense.mixed)) _ _)
            0%nat _);
    [by_evaluation | vm_compute; intros H; discriminate H | simpl; lia].
Defined.







(* ================================================================== *)
(** ** Properties of the smoothing helpers *)

Lemma arcmin_factor : Qc_of_Z 60 * Qc_of_Z 360 = Qc_of_Z 2 * Qc_of_Z 10800.
Proof. apply Qc_is_canon. vm_compute. reflexivity. Qed.

(** X11.  [arcmin2rad] converts minutes of arc to radians with the double
    [np.pi]: a finite [x] goes to [x * np.pi / 10800], so 10800 minutes
    (180 degrees) go to [np.pi]; the conversion is additive; [nan] stays
    [nan] (exact arithmetic). *)
Theorem arcmin2rad_is_linear_in_pi :
  (forall q : Qc, arcmin2rad (Fin q) = Fin (q * np_pi / Qc_of_Z 10800))
  /\ arcmin2rad (of_Z 10800) = Fin np_pi
  /\ (forall q1 q2 : Qc,
        arcmin2rad (add (Fin q1) (Fin q2))
        = add (arcmin2rad (Fin q1)) (arcmin2rad (Fin q2)))
  /\ arcmin2rad NaN = NaN.
Proof.
  assert (H60 : 0 < Qc_of_Z 60) by (apply Qc_of_Z_pos; lia).
  assert (H360 : 0 < Qc_of_Z 360) by (apply Qc_of_Z_pos; lia).
  assert (N60 : Qc_of_Z 60 <> 0) by (apply Qc_of_Z_neq0; lia).
  assert (N360 : Qc_of_Z 360 <> 0) by (apply Qc_of_Z_neq0; lia).
  assert (N2 : Qc_of_Z 2 <> 0) by (apply Qc_of_Z_neq0; lia).
  assert (N10800 : Qc_of_Z 10800 <> 0) by (apply Qc_of_Z_neq0; lia).
  assert (Hval : forall q : Qc,
            arcmin2rad (Fin q) = Fin (q * np_pi / Qc_of_Z 10800)).
  { intros q. unfold arcmin2rad, of_Z. cbn [div].
    rewrite (compare_pos _ H60). cbn [div]. rewrite (compare_pos _ H360).
    cbn [mul]. f_equal.
    assert (E : Qc_of_Z 10800 = Qc_of_Z 60 * Qc_of_Z 360 / Qc_of_Z 2)
      by (rewrite arcmin_factor; now field).
    rewrite E. now field. }
  split; [exact Hval | split; [|split; [|reflexivity]]].
  - unfold of_Z. rewrite Hval. f_equal. now field.
  - intros q1 q2. cbn [add]. rewrite !Hval. cbn [add]. f_equal. now field.
Qed.

(** X12.  Smoothing a nested map is smoothing the ring map.  If healpy's
    nested-to-ring reordering undoes its ring-to-nested one, then whenever
    [gaussian_smoothing(sig, sigma, nest=True)] returns, its result read in
    ring order is what [gaussian_smoothing] returns with [nest=False] on the
    ring-ordered map. *)
Theorem nested_smoothing_is_ring_smoothing (hp : Healpy) (sig out : list fl)
    (sigma : fl) :
  (forall m m', reorder_r2n hp m = Ok m' -> reorder_n2r hp m' = Ok m) ->
  gaussian_smoothing hp sig sigma true = Ok out ->
  exists ring_sig ring_out,
    reorder_n2r hp sig = Ok ring_sig
    /\ gaussian_smoothing hp ring_sig sigma false = Ok ring_out
    /\ reorder_n2r hp out = Ok ring_out.
Proof.
  intros Hinv. unfold gaussian_smoothing.
  destruct (reorder_n2r hp sig) as [ring_sig|] eqn:Hn; [|discriminate].
  destruct (smoothing hp ring_sig (arcmin2rad sigma)) as [ring_out|] eqn:Hs;
    [|discriminate].
  intros Hr. exists ring_sig, ring_out. repeat split; [now rewrite Hs | now apply Hinv].
Qed.

Lemma nested_smoothing_is_ring_smoothing_witness :
  exists ring_sig ring_out,
    reorder_n2r Examples.toy_healpy [Fin 1; Fin 0; Fin 0] = Ok ring_sig
    /\ gaussian_smoothing Examples.toy_healpy ring_sig (of_Z 315) false = Ok ring_out
    /\ reorder_n2r Examples.toy_healpy
         (Examples.returned_map
            (gaussian_smoothing Examples.toy_healpy [Fin 1; Fin 0; Fin 0] (of_Z 315) true))
       = Ok ring_out.
Proof.
  apply (nested_smoothing_is_ring_smoothing Examples.toy_healpy
           [Fin 1; Fin 0; Fin 0] _ (of_Z 315)).
  - intros m m' H. inversion H. simpl. now rewrite rev_involutive.
  - by_evaluation.
Defined.

Lemma py_max2_finite (a b : Qc) :
  exists r, py_max2 (Fin a) (Fin b) = Fin r /\ a <= r /\ b <= r.
Proof.
  unfold py_max2, py_gt. simpl.
  destruct (Qc_compare_spec b a) as [E|Hlt|Hgt]; simpl.
  - exists a. rewrite E. repeat split; apply Qcle_refl.
  - exists a. repeat split; [apply Qcle_refl | now apply Qclt_le_weak].
  - exists b. repeat split; [now apply Qclt_le_weak | apply Qcle_refl].
Qed.

Lemma fold_max_finite (l : list fl) (acc : Qc) :
  forallb is_finite l = true ->
  exists r, fold_left py_max2 l (Fin acc) = Fin r
            /\ acc <= r
            /\ forall x, In x l -> leb x (Fin r) = true.
Proof.
  revert acc. induction l as [|x l IH]; intros acc Hfin.
  - exists acc. repeat split; [apply Qcle_refl | intros x []].
  - simpl in Hfin. apply andb_true_iff in Hfin as [Hx Hl].
    destruct x as [b| | |]; try discriminate. cbn [fold_left].
    destruct (py_max2_finite acc b) as [r [-> [Ha Hb]]].
    destruct (IH r Hl) as [r' [Hr' [Hle Hall]]].
    exists r'. split; [exact Hr'|]. split; [now apply Qcle_trans with r|].
    intros x [<-|Hin]; [|now apply Hall].
    apply leb_Fin. now apply Qcle_trans with r.
Qed.

Lemma py_max_finite (l : list fl) (top : fl) :
  forallb is_finite l = true -> py_max l = Ok top ->
  exists r, top = Fin r /\ forall x, In x l -> leb x (Fin r) = true.
Proof.
  destruct l as [|x l]; [discriminate|]. intros Hfin Hmax.
  simpl in Hfin. apply andb_true_iff in Hfin as [Hx Hl].
  destruct x as [a| | |]; try discriminate. simpl in Hmax. inversion Hmax.
  destruct (fold_max_finite l a Hl) as [r [Hr [Hle Hall]]].
  exists r. split; [exact Hr|]. intros x [<-|Hin]; [now apply leb_Fin | now apply Hall].
Qed.

(** X13.  The colour scale of the comparison loop.  When the loop over the
    smoothing widths completes, it has made one step per width, and at every
    step the running value [m] is at least its starting value and at least
    every (finite) pixel of the map smoothed at that step, so the colour
    range [[-m, m]] never cuts a smoothed map from above. *)
Theorem colour_scale_covers_maxima (hp : Healpy) (sig : list fl) (sigmas : list fl)
    (m0 : Qc) (steps : list (list fl * fl)) :
  colour_scales hp sig sigmas (Fin m0) = Ok steps ->
  (forall smooth m, In (smooth, m) steps -> forallb is_finite smooth = true) ->
  length steps = length sigmas
  /\ forall smooth m, In (smooth, m) steps ->
       exists q, m = Fin q /\ m0 <= q
                 /\ forall x, In x smooth -> leb x m = true.
Proof.
  revert m0 steps. induction sigmas as [|sigma rest IH]; intros m0 steps Hrun Hfin.
  - simpl in Hrun. inversion Hrun. split; [reflexivity | intros ? ? []].
  - cbn [colour_scales] in Hrun.
    destruct (gaussian_smoothing hp sig sigma true) as [smooth|]; [|discriminate].
    destruct (py_max smooth) as [top|] eqn:Htop; [|discriminate].
    assert (Hs : forallb is_finite smooth = true).
    { destruct (colour_scales hp sig rest (py_max2 (Fin m0) top)) as [later|];
        [|discriminate].
      inversion Hrun; subst steps. apply (Hfin smooth (py_max2 (Fin m0) top)).
      now left. }
    destruct (py_max_finite smooth top Hs Htop) as [t [-> Hall]].
    destruct (py_max2_finite m0 t) as [r [Hr [Hm0 Ht]]]. rewrite Hr in Hrun.
    destruct (colour_scales hp sig rest (Fin r)) as [later|] eqn:Hlater;
      [|discriminate].
    inversion Hrun; subst steps.
    destruct (IH r later Hlater) as [Hlen Hrest].
    { intros s m Hin. apply (Hfin s m). now right. }
    split; [simpl; now rewrite Hlen|].
    intros s m [Heq|Hin].
    + inversion Heq; subst s m. exists r. repeat split; [assumption|].
      intros x Hx. specialize (Hall x Hx).
      destruct x as [a| | |]; try discriminate; try reflexivity.
      apply leb_Fin. apply Qcle_trans with t; [|assumption].
      simpl in Hall. destruct (Qc_compare_spec a t) as [E|H|H];
        [rewrite E; apply Qcle_refl | now apply Qclt_le_weak | discriminate].
    + destruct (Hrest s m Hin) as [q [-> [Hq Hx]]].
      exists q. repeat split; [now apply Qcle_trans with r | assumption].
Qed.

Lemma colour_scale_covers_maxima_witness :
  length (Examples.returned_steps
            (colour_scales Examples.toy_healpy [Fin 1; Fin 0]
               [of_Z 315; of_Z 465] (Fin 0)))
  = length [of_Z 315; of_Z 465].
Proof.
  refine (proj1 (colour_scale_covers_maxima Examples.toy_healpy [Fin 1; Fin 0]
                   [of_Z 315; of_Z 465] 0
                   (Examples.returned_steps
                      (colour_scales Examples.toy_healpy [Fin 1; Fin 0]
                         [of_Z 315; of_Z 465] (Fin 0))) _ _)).
  - by_evaluation.
  - intros smooth m H. vm_compute in H.
    destruct H as [H|[H|[]]]; inversion H; reflexivity.
Defined.
